(** * wechat_reader: a shallow embedding of [src/python/wechat_reader.py]

    The reader opens the SQLite stores of a chat client, lists contacts and
    groups through one of two schema generations, and reads the messages of
    a conversation from every message shard.

    Conventions of the embedding.
    - A Python [int] is a [Z]; a Python [str] is a [string] holding the
      UTF-8 encoding of the text; a Python [bytes] is a [list byte].
    - A field declared with a type in the source ([local_id: int],
      [create_time: int], ...) has that type here; a column the source
      guards with [or] or tests with [isinstance] keeps its dynamic value.
    - Statements that may raise live in the monad [M]: a state transformer
      whose result is a value or a raised exception.  The state is kept
      when an exception is raised, as in Python.
    - A database connection is given by its answers to the statements the
      reader executes, so that a statement about every connection covers
      every store and every failure; [Sqlite] gives the answers of stores
      with known contents.

    The definitions come first: the library functions the reader calls
    ([hashlib.md5], [re.match], [bytes.decode]), the reader's methods under
    their own names, the commands of [main], then the models of the stores
    and the descriptions the statements use.  The properties follow. *)

From Stdlib Require Import ZArith List String Ascii Strings.Byte Lia Bool.
From Stdlib Require Import Sorting.Sorted Sorting.Permutation DecimalString.
From stdpp Require Import base option list gmap strings.

Open Scope Z_scope.

(** * Exceptions and the execution monad *)

(** The exception classes the source catches or can meet.  Every one of
    them is a subclass of [Exception]. *)
Inductive exn : Type :=
| OperationalError (msg : string)   (* sqlite3.OperationalError *)
| DatabaseError (msg : string)      (* any other sqlite3.Error *)
| OSError (msg : string)            (* os.listdir, open *)
| AttributeError (msg : string)     (* method call on None *)
| ImportError (msg : string)        (* import zstandard *)
| ZstdError (msg : string)          (* zstandard.ZstdError *)
| UnicodeDecodeError (msg : string)
| ValueError (msg : string).        (* int(s) *)

(** [str(e)] *)
Definition exn_str (e : exn) : string :=
  match e with
  | OperationalError m | DatabaseError m | OSError m | AttributeError m
  | ImportError m | ZstdError m | UnicodeDecodeError m | ValueError m => m
  end.

(** [isinstance(e, sqlite3.OperationalError)] *)
Definition is_OperationalError (e : exn) : bool :=
  match e with OperationalError _ => true | _ => false end.

(** [isinstance(e, sqlite3.Error)] *)
Definition is_sqlite3_Error (e : exn) : bool :=
  match e with OperationalError _ | DatabaseError _ => true | _ => false end.

(** [isinstance(e, Exception)] *)
Definition is_Exception (e : exn) : bool := true.

Inductive Res (A : Type) : Type :=
| Val (a : A)
| Exn (e : exn).
Arguments Val {A} a.
Arguments Exn {A} e.

Definition M (S A : Type) : Type := S → Res A * S.

Section Monad.
Context {S : Type}.

Definition ret {A} (a : A) : M S A := λ s, (Val a, s).

Definition bind {A B} (f : A → M S B) (m : M S A) : M S B :=
  λ s, match m s with
       | (Val a, s') => f a s'
       | (Exn e, s') => (Exn e, s')
       end.

Definition raise {A} (e : exn) : M S A := λ s, (Exn e, s).

(** An expression that may raise, evaluated without touching the state. *)
Definition lift {A} (r : Res A) : M S A := λ s, (r, s).

Definition get_state : M S S := λ s, (Val s, s).
Definition modify (f : S → S) : M S unit := λ s, (Val tt, f s).

(** [try: body  except C as e: handler e] where [catches] decides
    [isinstance(e, C)]. An exception outside [C] goes on to the caller. *)
Definition try_except {A} (body : M S A) (catches : exn → bool)
    (handler : exn → M S A) : M S A :=
  λ s, match body s with
       | (Val a, s') => (Val a, s')
       | (Exn e, s') => if catches e then handler e s' else (Exn e, s')
       end.

(** [for x in xs: body x]; an exception leaves the loop. *)
Fixpoint for_each {A} (xs : list A) (body : A → M S unit) : M S unit :=
  match xs with
  | [] => ret tt
  | x :: xs' => bind (λ _, for_each xs' body) (body x)
  end.
End Monad.

Global Instance M_ret {S} : MRet (M S) := @ret S.
Global Instance M_bind {S} : MBind (M S) := @bind S.

(** * Data model *)

(** [class MessageType] *)
Module MessageType.
Definition TEXT : Z := 1.
Definition IMAGE : Z := 3.
Definition VOICE : Z := 34.
Definition CONTACT_CARD : Z := 42.
Definition VIDEO : Z := 43.
Definition EMOJI : Z := 47.
Definition LOCATION : Z := 48.
Definition LINK : Z := 49.
Definition VOIP : Z := 50.
Definition SYSTEM : Z := 10000.
Definition REVOKE : Z := 10002.
End MessageType.

(** [@dataclass class Contact] *)
Record Contact : Type := {
  wxid : string;
  nickname : string;
  remark : string;
  alias : string;
  small_head_img_url : string;
  type : string;
  is_chatroom : bool;
  member_count : Z
}.

(** [@dataclass class Message] *)
Record Message : Type := {
  local_id : Z;
  server_id : Z;
  msg_type : Z;
  sender_username : string;
  create_time : Z;
  content : string;
  is_sender : bool;
  talker : string
}.

(** [Message._get_type_name]: the dict literal and [types.get(k, 'unknown')]. *)
Definition type_names : gmap Z string :=
  list_to_map
    [ (MessageType.TEXT, "text");
      (MessageType.IMAGE, "image");
      (MessageType.VOICE, "voice");
      (MessageType.CONTACT_CARD, "contact");
      (MessageType.VIDEO, "video");
      (MessageType.EMOJI, "emoji");
      (MessageType.LOCATION, "location");
      (MessageType.LINK, "link");
      (MessageType.SYSTEM, "system");
      (MessageType.REVOKE, "revoke") ].

Definition _get_type_name (self : Message) : string :=
  default "unknown" (type_names !! msg_type self).

(** * [hashlib.md5]

    The standard library's MD5 (RFC 1321) on 32-bit words kept in [Z] with
    the wrap-around written out.  [get_messages] names a conversation's
    table after the digest of its identifier. *)
Module hashlib.
Definition w32 (x : Z) : Z := x mod 2 ^ 32.
Definition not32 (x : Z) : Z := Z.lxor x 0xffffffff.
Definition rotl32 (x c : Z) : Z :=
  Z.lor (w32 (Z.shiftl x c)) (Z.shiftr x (32 - c)).

(** Per-round shift amounts. *)
Definition shifts : list Z :=
  [ 7; 12; 17; 22; 7; 12; 17; 22; 7; 12; 17; 22; 7; 12; 17; 22;
    5; 9; 14; 20; 5; 9; 14; 20; 5; 9; 14; 20; 5; 9; 14; 20;
    4; 11; 16; 23; 4; 11; 16; 23; 4; 11; 16; 23; 4; 11; 16; 23;
    6; 10; 15; 21; 6; 10; 15; 21; 6; 10; 15; 21; 6; 10; 15; 21 ].

(** [floor(2^32 * abs(sin(i + 1)))] *)
Definition sines : list Z :=
  [ 0xd76aa478; 0xe8c7b756; 0x242070db; 0xc1bdceee;
    0xf57c0faf; 0x4787c62a; 0xa8304613; 0xfd469501;
    0x698098d8; 0x8b44f7af; 0xffff5bb1; 0x895cd7be;
    0x6b901122; 0xfd987193; 0xa679438e; 0x49b40821;
    0xf61e2562; 0xc040b340; 0x265e5a51; 0xe9b6c7aa;
    0xd62f105d; 0x02441453; 0xd8a1e681; 0xe7d3fbc8;
    0x21e1cde6; 0xc33707d6; 0xf4d50d87; 0x455a14ed;
    0xa9e3e905; 0xfcefa3f8; 0x676f02d9; 0x8d2a4c8a;
    0xfffa3942; 0x8771f681; 0x6d9d6122; 0xfde5380c;
    0xa4beea44; 0x4bdecfa9; 0xf6bb4b60; 0xbebfbc70;
    0x289b7ec6; 0xeaa127fa; 0xd4ef3085; 0x04881d05;
    0xd9d4d039; 0xe6db99e5; 0x1fa27cf8; 0xc4ac5665;
    0xf4292244; 0x432aff97; 0xab9423a7; 0xfc93a039;
    0x655b59c3; 0x8f0ccc92; 0xffeff47d; 0x85845dd1;
    0x6fa87e4f; 0xfe2ce6e0; 0xa3014314; 0x4e0811a1;
    0xf7537e82; 0xbd3af235; 0x2ad7d2bb; 0xeb86d391 ].

(** The [n] low bytes of [x], least significant first. *)
Fixpoint le_bytes (n : nat) (x : Z) : list Z :=
  match n with
  | O => []
  | S n' => x mod 256 :: le_bytes n' (x / 256)
  end.

(** Little-endian word at byte offset [4 * i] of a block. *)
Definition word_at (block : list Z) (i : nat) : Z :=
  nth (4 * i) block 0
  + 256 * (nth (4 * i + 1) block 0
  + 256 * (nth (4 * i + 2) block 0
  + 256 * nth (4 * i + 3) block 0)).

Definition round (block : list Z) (st : Z * Z * Z * Z) (i : nat)
    : Z * Z * Z * Z :=
  let '(a, b, c, d) := st in
  let j := Z.of_nat i in
  let '(f, g) :=
    if j <? 16 then (Z.lor (Z.land b c) (Z.land (not32 b) d), j)
    else if j <? 32 then
      (Z.lor (Z.land d b) (Z.land (not32 d) c), (5 * j + 1) mod 16)
    else if j <? 48 then (Z.lxor (Z.lxor b c) d, (3 * j + 5) mod 16)
    else (Z.lxor c (Z.lor b (not32 d)), (7 * j) mod 16) in
  let f' := w32 (f + a + nth i sines 0 + word_at block (Z.to_nat g)) in
  (d, w32 (b + rotl32 f' (nth i shifts 0)), b, c).

Definition compress (st : Z * Z * Z * Z) (block : list Z) : Z * Z * Z * Z :=
  let '(a0, b0, c0, d0) := st in
  let '(a, b, c, d) := fold_left (round block) (seq 0 64) st in
  (w32 (a0 + a), w32 (b0 + b), w32 (c0 + c), w32 (d0 + d)).

(** The message, one [0x80] byte, zero bytes up to 56 modulo 64, and the
    bit length on 8 bytes. *)
Definition pad (msg : list Z) : list Z :=
  let len := Z.of_nat (length msg) in
  msg ++ [0x80] ++ repeat 0 (Z.to_nat ((55 - len) mod 64))
      ++ le_bytes 8 ((8 * len) mod 2 ^ 64).

Fixpoint blocks (fuel : nat) (l : list Z) : list (list Z) :=
  match fuel, l with
  | S fuel', _ :: _ => take 64 l :: blocks fuel' (drop 64 l)
  | _, _ => []
  end.

Definition init : Z * Z * Z * Z :=
  (0x67452301, 0xefcdab89, 0x98badcfe, 0x10325476).

(** [hashlib.md5(data).digest()], as byte values *)
Definition md5_digest (data : list byte) : list Z :=
  let msg := pad (map (λ b, Z.of_N (Byte.to_N b)) data) in
  let '(a, b, c, d) := fold_left compress (blocks (length msg) msg) init in
  le_bytes 4 a ++ le_bytes 4 b ++ le_bytes 4 c ++ le_bytes 4 d.

Definition hex_digit (n : Z) : ascii :=
  nth (Z.to_nat n) (list_ascii_of_string "0123456789abcdef") "0"%char.

Definition hex_byte (b : Z) : list ascii :=
  [hex_digit (b / 16); hex_digit (b mod 16)].

(** [hashlib.md5(data).hexdigest()] *)
Definition md5_hexdigest (data : list byte) : string :=
  string_of_list_ascii (concat (map hex_byte (md5_digest data))).
End hashlib.

(** [s.encode("utf-8")]: a [str] is held as its UTF-8 encoding. *)
Definition str_encode_utf8 (s : string) : list byte := list_byte_of_string s.

(** * The table-name check

    [re.match(r'^Msg_[a-f0-9]{32}$', s)].  Without [re.MULTILINE] Python's
    [$] matches at the end of the string and also just before a line feed
    that is the last character of the string. *)
Module re.
Definition in_range (lo hi c : ascii) : bool :=
  ((nat_of_ascii lo <=? nat_of_ascii c)
   && (nat_of_ascii c <=? nat_of_ascii hi))%nat.

(** [[a-f0-9]] *)
Definition is_hex_lower (c : ascii) : bool :=
  in_range "a" "f" c || in_range "0" "9" c.

(** [$] where [rest] is what remains of the string *)
Definition at_dollar (rest : list ascii) : bool :=
  match rest with
  | [] => true
  | [c] => Ascii.eqb c "010"
  | _ => false
  end.

Definition match_Msg_hex32 (s : string) : bool :=
  match list_ascii_of_string s with
  | "M" :: "s" :: "g" :: "_" :: rest =>
    (length (take 32 rest) =? 32)%nat
    && forallb is_hex_lower (take 32 rest)
    && at_dollar (drop 32 rest)
  | _ => false
  end%char.
End re.

(** The shape the check is meant to enforce: [Msg_] followed by exactly 32
    lowercase hexadecimal characters, and nothing else. *)
Definition Msg_hex32 (s : string) : Prop :=
  ∃ hex : list ascii,
    s = "Msg_" +:+ string_of_list_ascii hex
    ∧ length hex = 32%nat
    ∧ Forall (λ c, re.is_hex_lower c = true) hex.

(** [table_name = f'Msg_{hashlib.md5(username.encode("utf-8")).hexdigest()}'] *)
Definition table_name_of (username : string) : string :=
  "Msg_" +:+ hashlib.md5_hexdigest (str_encode_utf8 username).

(** * [bytes.decode('utf-8', errors=...)]

    The interpreter's UTF-8 decoder.  A [str] is held as its UTF-8
    encoding, so decoding keeps the well-formed sequences of the input; at
    an ill-formed one [strict] raises and [ignore] skips the bytes the
    decoder reports as the error (the ill-formed prefix, or everything that
    is left when the data ends inside a sequence). *)
Module codecs.
Inductive errors : Type := strict | ignore.

Definition v (b : byte) : Z := Z.of_N (Byte.to_N b).

(** A continuation byte, [0x80..0xBF]. *)
Definition is_cont (b : byte) : bool := (0x80 <=? v b) && (v b <? 0xC0).

(** Second byte of a three-byte sequence: rules out overlong forms after
    [0xE0] and surrogates after [0xED]. *)
Definition second_of_3 (b0 b1 : byte) : bool :=
  is_cont b1
  && negb (if v b1 <? 0xA0 then v b0 =? 0xE0 else v b0 =? 0xED).

(** Second byte of a four-byte sequence: rules out overlong forms after
    [0xF0] and code points above U+10FFFF after [0xF4]. *)
Definition second_of_4 (b0 b1 : byte) : bool :=
  is_cont b1
  && negb (if v b1 <? 0x90 then v b0 =? 0xF0 else v b0 =? 0xF4).

Definition on_error (errs : errors) (k : Res (list byte)) : Res (list byte) :=
  match errs with
  | strict => Exn (UnicodeDecodeError "'utf-8' codec can't decode bytes")
  | ignore => k
  end.

Definition emit (seq : list byte) (k : Res (list byte)) : Res (list byte) :=
  match k with
  | Val l => Val (seq ++ l)
  | Exn e => Exn e
  end.

Fixpoint utf8_decode (errs : errors) (bs : list byte) : Res (list byte) :=
  match bs with
  | [] => Val []
  | b0 :: r0 =>
    if v b0 <? 0x80 then emit [b0] (utf8_decode errs r0)
    else if v b0 <? 0xC2 then on_error errs (utf8_decode errs r0)
    else if v b0 <? 0xE0 then
      match r0 with
      | [] => on_error errs (Val [])
      | b1 :: r1 =>
        if is_cont b1 then emit [b0; b1] (utf8_decode errs r1)
        else on_error errs (utf8_decode errs r0)
      end
    else if v b0 <? 0xF0 then
      match r0 with
      | [] => on_error errs (Val [])
      | b1 :: r1 =>
        if negb (second_of_3 b0 b1) then on_error errs (utf8_decode errs r0)
        else
          match r1 with
          | [] => on_error errs (Val [])
          | b2 :: r2 =>
            if is_cont b2 then emit [b0; b1; b2] (utf8_decode errs r2)
            else on_error errs (utf8_decode errs r1)
          end
      end
    else if v b0 <? 0xF5 then
      match r0 with
      | [] => on_error errs (Val [])
      | b1 :: r1 =>
        if negb (second_of_4 b0 b1) then on_error errs (utf8_decode errs r0)
        else
          match r1 with
          | [] => on_error errs (Val [])
          | b2 :: r2 =>
            if negb (is_cont b2) then on_error errs (utf8_decode errs r1)
            else
              match r2 with
              | [] => on_error errs (Val [])
              | b3 :: r3 =>
                if is_cont b3
                then emit [b0; b1; b2; b3] (utf8_decode errs r3)
                else on_error errs (utf8_decode errs r2)
              end
          end
      end
    else on_error errs (utf8_decode errs r0)
  end.

(** [bs.decode('utf-8', errors=errs)] *)
Definition decode (errs : errors) (bs : list byte) : Res string :=
  match utf8_decode errs bs with
  | Val l => Val (string_of_list_byte l)
  | Exn e => Exn e
  end.
End codecs.

(** * Python values and helpers *)

(** A column value as [sqlite3] hands it to Python. *)
Inductive pyval : Type :=
| PyNone
| PyInt (n : Z)
| PyFloat (bits : Z)
| PyStr (s : string)
| PyBytes (b : list byte).

(** [x or d] on an optional string: [None] and [''] are false. *)
Definition str_or (x : option string) (d : string) : string :=
  match x with
  | Some s => if String.eqb s "" then d else s
  | None => d
  end.

(** [s.startswith(prefix)] *)
Definition startswith (s pre : string) : bool := String.prefix pre s.

(** [s.endswith(suffix)] *)
Definition endswith (s suf : string) : bool :=
  (String.length suf <=? String.length s)%nat
  && String.eqb
       (substring (String.length s - String.length suf) (String.length suf) s)
       suf.

(** [os.path.join(a, b)] on POSIX *)
Definition path_join2 (a b : string) : string :=
  if startswith b "/" then b
  else if String.eqb a "" || endswith a "/" then a +:+ b
  else a +:+ "/" +:+ b.

(** [os.path.join(a, *ps)] *)
Definition path_join (a : string) (ps : list string) : string :=
  fold_left path_join2 ps a.
Global Arguments path_join : simpl never.

(** [str(i)] *)
Definition str_of_int (i : Z) : string := NilZero.string_of_int (Z.to_int i).

(** [str(i)] for [i] in [range(n)] *)
Definition str_of_nat (i : nat) : string := str_of_int (Z.of_nat i).

(** A stable insertion sort: [insert_sorted] puts an element before the
    first one it is not above, so that elements the order does not tell
    apart keep the order they had in the input. *)
Section Sort.
Context {A : Type} (le : A → A → bool).

Fixpoint insert_sorted (x : A) (l : list A) : list A :=
  match l with
  | [] => [x]
  | y :: l' => if le x y then x :: y :: l' else y :: insert_sorted x l'
  end.

Fixpoint stable_sort (l : list A) : list A :=
  match l with
  | [] => []
  | x :: l' => insert_sorted x (stable_sort l')
  end.
End Sort.

(** [l.sort(key=key)] with integer keys: Python's sort is stable and
    ascending. *)
Definition list_sort {A} (key : A → Z) (l : list A) : list A :=
  stable_sort (λ x y, key x <=? key y) l.

(** * Database connections *)

(** Result rows of the message queries. *)
Module MsgRow.
Record t : Type := {
  local_id : Z;
  server_id : option Z;
  local_type : Z;
  sender_username : option string;
  create_time : Z;
  message_content : pyval;
  is_sender : Z
}.
End MsgRow.

(** Result rows of the new-schema contact query; [username] is not
    constrained by the query's [WHERE] and may be [NULL]. *)
Module RowV4.
Record t : Type := {
  username : option string;
  alias : option string;
  remark : option string;
  nick_name : option string;
  small_head_url : option string
}.
End RowV4.

(** Result rows of the new-schema group query ([username LIKE
    '%@chatroom'] holds, so [username] is text). *)
Module GroupV4.
Record t : Type := {
  username : string;
  alias : option string;
  nick_name : option string;
  remark : option string;
  small_head_url : option string
}.
End GroupV4.

(** Result rows of the old-schema contact and group queries (the
    [WHERE] clauses compare [UserName], so it is text). *)
Module RowOld.
Record t : Type := {
  UserName : string;
  Alias : option string;
  NickName : option string;
  Remark : option string
}.
End RowOld.

(** The statements the reader executes, with their bound parameters.
    [since] is [Some start_time] when the [WHERE create_time >= ?] clause
    is appended. *)
Inductive Query : Type :=
| QTableExists (name : string)
| QMessagesJoined (table my_wxid : string) (since : option Z) (limit offset : Z)
| QMessagesPlain (table : string) (since : option Z) (limit offset : Z)
| QContactsV4
| QContactsOld
| QGroupsV4
| QGroupsOld
| QChatRoomExt (username : string).

(** What [cursor.fetchall()] returns or raises after a successful
    [execute]. *)
Definition Cursor (R : Type) : Type := Res (list R).

(** A [sqlite3.Connection], given by its answer to each statement:
    [execute] raises or yields a cursor. *)
Record Connection : Type := {
  conn_repr : string;
  table_exists : string → Res (Cursor string);
  messages_joined :
    string → string → option Z → Z → Z → Res (Cursor MsgRow.t);
  messages_plain : string → option Z → Z → Z → Res (Cursor MsgRow.t);
  contacts_v4 : Res (Cursor RowV4.t);
  contacts_old : Res (Cursor RowOld.t);
  groups_v4 : Res (Cursor GroupV4.t);
  groups_old : Res (Cursor RowOld.t);
  chat_room_ext : string → Res (Cursor pyval)
}.

(** What the reader finds outside itself. *)
Record Env : Type := {
  path_exists : string → bool;                  (* os.path.exists *)
  listdir : string → Res (list string);         (* os.listdir *)
  sqlite3_connect : string → Res Connection;    (* sqlite3.connect *)
  (* open(path) ; json.load(f).get('username', '') *)
  info_username : string → Res string;
  (* the zstandard module when installed:
     ZstdDecompressor().decompress *)
  zstandard : option (list byte → Res (list byte));
  int_of_str : string → Res Z                   (* int(s) *)
}.

(** * The reader *)

(** [class WeChatDatabaseV4]; [new_reader] is its [__init__]. *)
Record Reader : Type := {
  db_dir : string;
  contact_db : option Connection;
  session_db : option Connection;
  message_dbs : list Connection;
  contacts_map : gmap string Contact;
  _initialized : bool
}.

Definition new_reader (dir : string) : Reader :=
  {| db_dir := dir; contact_db := None; session_db := None;
     message_dbs := []; contacts_map := ∅; _initialized := false |}.

(** JSON values, for what [to_dict] builds and [json.dumps] prints. *)
#[warnings="-register-all"] Inductive json : Type :=
| JNull
| JBool (b : bool)
| JInt (n : Z)
| JStr (s : string)
| JList (l : list json)
| JObj (fields : list (string * json)).

(** The process: the reader object, the lines printed to [sys.stderr], the
    values printed to standard output, and the statements executed so
    far, each with the [repr] of its connection. *)
Record Proc : Type := {
  self : Reader;
  stderr : list string;
  stdout : list json;
  sql_log : list (string * Query)
}.

Definition start (dir : string) : Proc :=
  {| self := new_reader dir; stderr := []; stdout := []; sql_log := [] |}.

Definition with_self (f : Reader → Reader) (p : Proc) : Proc :=
  {| self := f (self p); stderr := stderr p; stdout := stdout p;
     sql_log := sql_log p |}.

(** [print(line, file=sys.stderr)] *)
Definition eprint (line : string) : M Proc unit :=
  modify (λ p, {| self := self p; stderr := stderr p ++ [line];
                  stdout := stdout p; sql_log := sql_log p |}).

(** [print(json.dumps(value))] *)
Definition print_json (value : json) : M Proc unit :=
  modify (λ p, {| self := self p; stderr := stderr p;
                  stdout := stdout p ++ [value]; sql_log := sql_log p |}).

(** [cursor.execute(q, params)]: the statement is recorded, then the
    connection answers. *)
Definition execute {R} (db : Connection) (q : Query) (answer : Res (Cursor R))
    : M Proc (Cursor R) :=
  modify (λ p, {| self := self p; stderr := stderr p; stdout := stdout p;
                  sql_log := sql_log p ++ [(conn_repr db, q)] |});;
  lift answer.

(** Local variables of a method: the body runs on the process state paired
    with the locals. *)
Section Locals.
Context {S L : Type}.

Definition with_local {A} (init : L) (m : M (S * L) A) : M S (A * L) :=
  λ s, match m (s, init) with
       | (Val a, (s', l)) => (Val (a, l), s')
       | (Exn e, (s', _)) => (Exn e, s')
       end.

Definition outer {A} (m : M S A) : M (S * L) A :=
  λ sl, match m (fst sl) with (r, s') => (r, (s', snd sl)) end.

Definition local_modify (f : L → L) : M (S * L) unit :=
  λ sl, (Val tt, (fst sl, f (snd sl))).
End Locals.

(** [cursor.fetchall()] and [cursor.fetchone()] *)
Definition fetchall {S R} (c : Cursor R) : M S (list R) := lift c.
Definition fetchone {S R} (c : Cursor R) : M S (option R) :=
  rows ← lift c; mret (head rows).

(** * Reading messages *)

(** [WeChatDatabaseV4._get_my_wxid]: the bare [except] swallows whatever
    reading [info.json] raises. *)
Definition _get_my_wxid (env : Env) (rd : Reader) : string :=
  let info_path := path_join (db_dir rd) ["info.json"] in
  if path_exists env info_path then
    match info_username env info_path with
    | Val name => name
    | Exn _ => ""
    end
  else "".

(** [import zstandard as zstd] *)
Definition import_zstandard {S} (env : Env) : M S (list byte → Res (list byte)) :=
  match zstandard env with
  | Some decompress => mret decompress
  | None => raise (ImportError "No module named 'zstandard'")
  end.

(** The [isinstance(content, bytes)] branch of the row loop. *)
Definition decompress_content {S} (env : Env) (raw : list byte) : M S string :=
  try_except
    (decompress ← import_zstandard env;
     data ← lift (decompress raw);
     lift (codecs.decode codecs.strict data))
    is_Exception
    (λ _, match raw with
          | [] => mret ""
          | _ :: _ => lift (codecs.decode codecs.ignore raw)
          end).

(** The content of a row: [content = row['message_content']], the
    decompression when it is [bytes], and
    [content if isinstance(content, str) else '']. *)
Definition decode_content {S} (env : Env) (raw : pyval) : M S string :=
  content ← match raw with
            | PyBytes b => s ← decompress_content env b; mret (PyStr s)
            | other => mret other
            end;
  mret (match content with PyStr s => s | _ => "" end).

(** The [Message(...)] built from a row. *)
Definition message_of_row {S} (env : Env) (username : string) (row : MsgRow.t)
    : M S Message :=
  content ← decode_content env (MsgRow.message_content row);
  mret {| local_id := MsgRow.local_id row;
          server_id := match MsgRow.server_id row with
                       | Some n => if n =? 0 then 0 else n
                       | None => 0
                       end;
          msg_type := MsgRow.local_type row;
          sender_username := str_or (MsgRow.sender_username row) "";
          create_time := MsgRow.create_time row;
          content := content;
          is_sender := negb (MsgRow.is_sender row =? 0);
          talker := username |}.

(** [start_time > 0] decides whether the [WHERE] clause is appended. *)
Definition since_of (start_time : Z) : option Z :=
  if 0 <? start_time then Some start_time else None.

(** One iteration of [for db in self.message_dbs], the [try] with its
    [except Exception] handler.  [all_messages] is the local. *)
Definition read_shard (env : Env) (table_name username : string)
    (limit offset start_time : Z) (db : Connection)
    : M (Proc * list Message) unit :=
  try_except
    (probe ← outer (execute db (QTableExists table_name)
                      (table_exists db table_name));
     found ← fetchone probe;
     match found with
     | None => mret tt
     | Some _ =>
       cursor ←
         try_except
           (p ← outer get_state;
            let my_wxid := _get_my_wxid env (self p) in
            let since := since_of start_time in
            outer (execute db
                     (QMessagesJoined table_name my_wxid since limit offset)
                     (messages_joined db table_name my_wxid since limit offset)))
           is_OperationalError
           (λ _,
            let since := since_of start_time in
            outer (execute db (QMessagesPlain table_name since limit offset)
                     (messages_plain db table_name since limit offset)));
       rows ← fetchall cursor;
       for_each rows (λ row,
         msg ← message_of_row env username row;
         local_modify (λ all_messages, all_messages ++ [msg]))
     end)
    is_Exception
    (λ e, outer (eprint ("Error getting messages from " +:+ conn_repr db
                         +:+ ": " +:+ exn_str e))).

(** [get_messages] from the validation of [table_name] on. *)
Definition get_messages_from (env : Env) (table_name username : string)
    (limit offset start_time : Z) : M Proc (list Message * nat) :=
  if negb (re.match_Msg_hex32 table_name) then
    eprint ("Invalid table name format: " +:+ table_name);;
    mret ([], 0%nat)
  else
    '(_, all_messages) ←
      with_local []
        (p ← outer get_state;
         for_each (message_dbs (self p))
           (read_shard env table_name username limit offset start_time));
    let all_messages := list_sort create_time all_messages in
    mret (all_messages, length all_messages).

(** [WeChatDatabaseV4.get_messages].  The [contact_map] the method builds
    from [contacts_map] is not used in it and is left out. *)
Definition get_messages (env : Env) (username : string)
    (limit offset start_time : Z) : M Proc (list Message * nat) :=
  p ← get_state;
  match message_dbs (self p) with
  | [] => mret ([], 0%nat)
  | _ :: _ =>
    get_messages_from env (table_name_of username) username
      limit offset start_time
  end.

(** * A model of the stores

    The contents of a SQLite file and the answers it gives to the reader's
    statements.  [ORDER BY] leaves the order of equal keys to the engine;
    the model keeps them in table order. *)
Module Sqlite.
(** A row of a [Msg_<digest>] table. *)
Record StoredMsg : Type := {
  local_id : Z;
  server_id : option Z;
  local_type : Z;
  real_sender_id : Z;
  create_time : Z;
  message_content : pyval
}.

(** A row of the new-schema table [contact]. *)
Record ContactRec : Type := {
  username : option string;
  alias : option string;
  local_type_c : Z;
  remark : option string;
  nick_name : option string;
  small_head_url : option string
}.

(** A row of the old-schema table [Contact]. *)
Record OldContactRec : Type := {
  UserName : string;
  Alias : option string;
  NickName : option string;
  Type_ : Z;
  Remark : option string
}.

(** Table names do not depend on case, so a file holds one contact
    table at most, of one schema. *)
Inductive contact_table : Type :=
| NoContactTable
| ContactV4 (rows : list ContactRec)
| ContactOld (rows : list OldContactRec).

Record File : Type := {
  path : string;
  corrupt : bool;                             (* not a database *)
  msg_tables : list (string * list StoredMsg);
  Name2Id : option (list (Z * string));       (* rowid, user_name *)
  contact : contact_table;
  chat_room : option (list (string * pyval))  (* username, ext_buffer *)
}.

Definition no_such_table {R} (name : string) : Res (Cursor R) :=
  Exn (OperationalError ("no such table: " +:+ name)).

Definition no_such_column {R} (name : string) : Res (Cursor R) :=
  Exn (OperationalError ("no such column: " +:+ name)).

Definition not_a_database {R} : Res (Cursor R) :=
  Exn (DatabaseError "file is not a database").

Definition lookup {V} (k : string) (l : list (string * V)) : option V :=
  snd <$> find (λ kv, String.eqb (fst kv) k) l.

(** [WHERE create_time >= ?] when present *)
Definition where_since (since : option Z) (l : list StoredMsg)
    : list StoredMsg :=
  match since with
  | Some t => filter (λ m, t ≤ create_time m) l
  | None => l
  end.

(** [ORDER BY create_time DESC] *)
Definition order_desc (l : list StoredMsg) : list StoredMsg :=
  stable_sort (λ x y, create_time y <=? create_time x) l.

(** [LIMIT ? OFFSET ?]: a negative limit is no limit, a negative offset
    is zero. *)
Definition window {R} (limit offset : Z) (l : list R) : list R :=
  let l' := drop (Z.to_nat offset) l in
  if limit <? 0 then l' else take (Z.to_nat limit) l'.

Definition select_messages (project : StoredMsg → MsgRow.t)
    (since : option Z) (limit offset : Z) (l : list StoredMsg)
    : list MsgRow.t :=
  map project (window limit offset (order_desc (where_since since l))).

(** The joined statement: [Name2Id.user_name] through [LEFT JOIN ... ON
    msg.real_sender_id = Name2Id.rowid], and the [CASE] on it. *)
Definition joined_row (names : list (Z * string)) (my_wxid : string)
    (m : StoredMsg) : MsgRow.t :=
  let sender := snd <$> find (λ kv, fst kv =? real_sender_id m) names in
  {| MsgRow.local_id := local_id m;
     MsgRow.server_id := server_id m;
     MsgRow.local_type := local_type m;
     MsgRow.sender_username := sender;
     MsgRow.create_time := create_time m;
     MsgRow.message_content := message_content m;
     MsgRow.is_sender :=
       match sender with
       | Some name => if String.eqb name my_wxid then 1 else 0
       | None => 0
       end |}.

(** The reduced statement: ['' as sender_username], [0 as is_sender]. *)
Definition plain_row (m : StoredMsg) : MsgRow.t :=
  {| MsgRow.local_id := local_id m;
     MsgRow.server_id := server_id m;
     MsgRow.local_type := local_type m;
     MsgRow.sender_username := Some "";
     MsgRow.create_time := create_time m;
     MsgRow.message_content := message_content m;
     MsgRow.is_sender := 0 |}.

Definition to_lower (c : ascii) : ascii :=
  let n := nat_of_ascii c in
  if ((65 <=? n) && (n <=? 90))%nat then ascii_of_nat (n + 32) else c.

Definition lower (s : string) : string :=
  string_of_list_ascii (map to_lower (list_ascii_of_string s)).

(** [x LIKE '%@chatroom'] ([LIKE] ignores ASCII case) *)
Definition like_chatroom (s : string) : bool :=
  endswith (lower s) "@chatroom".

(** [x LIKE 'gh_%']: [_] stands for one character *)
Definition like_gh (s : string) : bool :=
  (3 <=? String.length s)%nat && String.eqb (lower (substring 0 2 s)) "gh".

(** [ORDER BY] on a text column: [NULL] first, then byte order. *)
Definition text_le (a b : option string) : bool :=
  match a, b with
  | None, _ => true
  | Some _, None => false
  | Some x, Some y => String.leb x y
  end.

Definition v4_row (c : ContactRec) : RowV4.t :=
  {| RowV4.username := username c; RowV4.alias := alias c;
     RowV4.remark := remark c; RowV4.nick_name := nick_name c;
     RowV4.small_head_url := small_head_url c |}.

Definition old_row (c : OldContactRec) : RowOld.t :=
  {| RowOld.UserName := UserName c; RowOld.Alias := Alias c;
     RowOld.NickName := NickName c; RowOld.Remark := Remark c |}.

(** [WHERE (local_type=1 OR local_type=2 OR local_type=5)
    ORDER BY nick_name] *)
Definition select_contacts_v4 (rows : list ContactRec) : list RowV4.t :=
  map v4_row
    (stable_sort (λ x y, text_le (nick_name x) (nick_name y))
       (filter (λ c, local_type_c c = 1 ∨ local_type_c c = 2
                     ∨ local_type_c c = 5) rows)).

(** [WHERE Type != 4 AND UserName NOT LIKE 'gh_%' AND UserName !=
    'filehelper' AND ... ORDER BY NickName] *)
Definition select_contacts_old (rows : list OldContactRec) : list RowOld.t :=
  map old_row
    (stable_sort (λ x y, text_le (NickName x) (NickName y))
       (filter (λ c, Type_ c ≠ 4 ∧ like_gh (UserName c) = false
                     ∧ UserName c ≠ "filehelper"
                     ∧ UserName c ≠ "floatbottle"
                     ∧ UserName c ≠ "medianote"
                     ∧ UserName c ≠ "fmessage") rows)).

(** [WHERE username LIKE '%@chatroom' ORDER BY nick_name]; a [NULL]
    [username] never satisfies [LIKE]. *)
Definition select_groups_v4 (rows : list ContactRec) : list GroupV4.t :=
  omap (λ c, match username c with
             | Some u =>
               if like_chatroom u then
                 Some {| GroupV4.username := u; GroupV4.alias := alias c;
                         GroupV4.nick_name := nick_name c;
                         GroupV4.remark := remark c;
                         GroupV4.small_head_url := small_head_url c |}
               else None
             | None => None
             end)
    (stable_sort (λ x y, text_le (nick_name x) (nick_name y)) rows).

(** [WHERE UserName LIKE '%@chatroom' ORDER BY NickName] *)
Definition select_groups_old (rows : list OldContactRec) : list RowOld.t :=
  map old_row
    (stable_sort (λ x y, text_le (NickName x) (NickName y))
       (filter (λ c, like_chatroom (UserName c) = true) rows)).

(** The table a name written into the text of a statement stands for:
    the tokenizer reads the identifier characters and skips white space;
    anything else after the identifier is a syntax error. *)
Definition is_ident_char (c : ascii) : bool :=
  let n := nat_of_ascii c in
  ((48 <=? n) && (n <=? 57) || (65 <=? n) && (n <=? 90)
   || (97 <=? n) && (n <=? 122) || (n =? 95) || (n =? 36) || (128 <=? n))%nat.

Definition is_space (c : ascii) : bool :=
  let n := nat_of_ascii c in
  ((n =? 32) || (9 <=? n) && (n <=? 13))%nat.

Fixpoint skip_ident (l : list ascii) : list ascii * list ascii :=
  match l with
  | c :: l' =>
    if is_ident_char c then
      let '(tok, rest) := skip_ident l' in (c :: tok, rest)
    else ([], l)
  | [] => ([], [])
  end.

Definition table_token (name : string) : option string :=
  let '(tok, rest) := skip_ident (list_ascii_of_string name) in
  match tok with
  | [] => None
  | _ :: _ =>
    if forallb is_space rest then Some (string_of_list_ascii tok) else None
  end.

Definition syntax_error {R} : Res (Cursor R) :=
  Exn (OperationalError "syntax error").

Definition table_names (f : File) : list string :=
  map fst (msg_tables f)
  ++ match Name2Id f with Some _ => ["Name2Id"] | None => [] end
  ++ match contact f with
     | NoContactTable => []
     | ContactV4 _ => ["contact"]
     | ContactOld _ => ["Contact"]
     end
  ++ match chat_room f with Some _ => ["chat_room"] | None => [] end.

Definition answer {R} (f : File) (r : Res (Cursor R)) : Res (Cursor R) :=
  if corrupt f then not_a_database else r.

(** [sqlite3.connect(path)] on the file.  The probe takes the name as a
    bound parameter; the message statements have it in their text. *)
Definition connect (f : File) : Connection :=
  {| conn_repr := "<sqlite3.Connection " +:+ path f +:+ ">";
     table_exists name :=
       answer f (Val (Val (List.filter (String.eqb name) (table_names f))));
     messages_joined name my_wxid since limit offset :=
       answer f
         match table_token name with
         | None => syntax_error
         | Some table =>
           match lookup table (msg_tables f), Name2Id f with
           | None, _ => no_such_table table
           | Some _, None => no_such_table "Name2Id"
           | Some rows, Some names =>
             Val (Val (select_messages (joined_row names my_wxid)
                         since limit offset rows))
           end
         end;
     messages_plain name since limit offset :=
       answer f
         match table_token name with
         | None => syntax_error
         | Some table =>
           match lookup table (msg_tables f) with
           | None => no_such_table table
           | Some rows =>
             Val (Val (select_messages plain_row since limit offset rows))
           end
         end;
     contacts_v4 :=
       answer f
         match contact f with
         | NoContactTable => no_such_table "contact"
         | ContactV4 rows => Val (Val (select_contacts_v4 rows))
         | ContactOld _ => no_such_column "local_type"
         end;
     contacts_old :=
       answer f
         match contact f with
         | NoContactTable => no_such_table "Contact"
         | ContactV4 _ => no_such_column "NickName"
         | ContactOld rows => Val (Val (select_contacts_old rows))
         end;
     groups_v4 :=
       answer f
         match contact f with
         | NoContactTable => no_such_table "contact"
         | ContactV4 rows => Val (Val (select_groups_v4 rows))
         | ContactOld _ => no_such_column "c.nick_name"
         end;
     groups_old :=
       answer f
         match contact f with
         | NoContactTable => no_such_table "Contact"
         | ContactV4 _ => no_such_column "NickName"
         | ContactOld rows => Val (Val (select_groups_old rows))
         end;
     chat_room_ext name :=
       answer f
         match chat_room f with
         | None => no_such_table "chat_room"
         | Some rows =>
           Val (Val (map snd
                       (List.filter (λ kv, String.eqb (fst kv) name) rows)))
         end |}.
End Sqlite.

(** * Opening the stores *)

Definition set_contact_db (c : Connection) (rd : Reader) : Reader :=
  {| db_dir := db_dir rd; contact_db := Some c; session_db := session_db rd;
     message_dbs := message_dbs rd; contacts_map := contacts_map rd;
     _initialized := _initialized rd |}.

Definition set_session_db (c : Connection) (rd : Reader) : Reader :=
  {| db_dir := db_dir rd; contact_db := contact_db rd; session_db := Some c;
     message_dbs := message_dbs rd; contacts_map := contacts_map rd;
     _initialized := _initialized rd |}.

Definition append_message_db (c : Connection) (rd : Reader) : Reader :=
  {| db_dir := db_dir rd; contact_db := contact_db rd;
     session_db := session_db rd; message_dbs := message_dbs rd ++ [c];
     contacts_map := contacts_map rd; _initialized := _initialized rd |}.

Definition set_initialized (b : bool) (rd : Reader) : Reader :=
  {| db_dir := db_dir rd; contact_db := contact_db rd;
     session_db := session_db rd; message_dbs := message_dbs rd;
     contacts_map := contacts_map rd; _initialized := b |}.

Definition register_contact (c : Contact) (rd : Reader) : Reader :=
  {| db_dir := db_dir rd; contact_db := contact_db rd;
     session_db := session_db rd; message_dbs := message_dbs rd;
     contacts_map := <[wxid c := c]> (contacts_map rd);
     _initialized := _initialized rd |}.

(** [db = sqlite3.connect(path)] followed by the assignment [store]. *)
Definition open_db (env : Env) (path : string)
    (store : Connection → Reader → Reader) : M Proc unit :=
  db ← lift (sqlite3_connect env path);
  modify (with_self (store db)).

(** [for i in range(count): ...] from index [i] on: open [message_<i>.db]
    in [dir] while the files exist, [break] at the first missing one. *)
Fixpoint open_numbered (env : Env) (dir : string) (i count : nat)
    : M Proc unit :=
  match count with
  | O => mret tt
  | S count' =>
    let msg_db_path :=
      path_join dir ["message_" +:+ str_of_nat i +:+ ".db"] in
    if path_exists env msg_db_path then
      open_db env msg_db_path append_message_db;;
      open_numbered env dir (S i) count'
    else mret tt
  end.

Global Arguments open_numbered : simpl never.

(** The four places where the contact store is looked for, in order,
    and the two places of the session store. *)
Definition contact_candidates (dir : string) : list string :=
  [ path_join dir ["contact"; "contact.db"];
    path_join dir ["contact.db"];
    path_join dir ["MicroMsg.db"];
    path_join dir ["Msg"; "MicroMsg.db"] ].

Definition session_candidates (dir : string) : list string :=
  [ path_join dir ["session"; "session.db"];
    path_join dir ["session.db"] ].

(** [init_database], the block under [# Contact database]. *)
Definition open_contact_store (env : Env) (dir : string) : M Proc unit :=
  let contact_db_path := path_join dir ["contact"; "contact.db"] in
  let flat_contact_db_path := path_join dir ["contact.db"] in
  if path_exists env contact_db_path then
    open_db env contact_db_path set_contact_db
  else if path_exists env flat_contact_db_path then
    open_db env flat_contact_db_path set_contact_db
  else
    let micromsg_path := path_join dir ["MicroMsg.db"] in
    if path_exists env micromsg_path then
      open_db env micromsg_path set_contact_db
    else
      let msg_micromsg_path := path_join dir ["Msg"; "MicroMsg.db"] in
      if path_exists env msg_micromsg_path then
        open_db env msg_micromsg_path set_contact_db
      else mret tt.

(** [init_database], the block under [# Session database]. *)
Definition open_session_store (env : Env) (dir : string) : M Proc unit :=
  let session_db_path := path_join dir ["session"; "session.db"] in
  let flat_session_db_path := path_join dir ["session.db"] in
  if path_exists env session_db_path then
    open_db env session_db_path set_session_db
  else if path_exists env flat_session_db_path then
    open_db env flat_session_db_path set_session_db
  else mret tt.

(** [init_database], the block under [# Message databases]. *)
Definition open_message_shards (env : Env) (dir : string) : M Proc unit :=
  let message_dir := path_join dir ["message"] in
  flat_message_path_exists ←
    (if path_exists env (path_join dir ["message_0.db"]) then
       open_numbered env dir 0 100;; mret true
     else mret false);
  if negb flat_message_path_exists && path_exists env message_dir then
    open_numbered env message_dir 0 100
  else if negb flat_message_path_exists then
    let msg_folder := path_join dir ["Msg"] in
    if path_exists env msg_folder then
      names ← lift (listdir env msg_folder);
      for_each names (λ filename,
        if startswith filename "MSG" && endswith filename ".db" then
          open_db env (path_join msg_folder [filename]) append_message_db
        else mret tt)
    else mret tt
  else mret tt.

(** [WeChatDatabaseV4.init_database]: the three blocks in the [try], then
    the flag. *)
Definition init_database (env : Env) : M Proc bool :=
  try_except
    (p ← get_state;
     let dir := db_dir (self p) in
     open_contact_store env dir;;
     open_session_store env dir;;
     open_message_shards env dir;;
     p ← get_state;
     let ok := bool_decide (is_Some (contact_db (self p))) in
     modify (with_self (set_initialized ok));;
     mret ok)
    is_Exception
    (λ e, eprint ("Error initializing database: " +:+ exn_str e);;
          mret false).

(** [WeChatDatabaseV4.get_status] *)
Definition get_status (rd : Reader) : json :=
  JObj [ ("initialized", JBool (_initialized rd));
         ("hasContactDb", JBool (bool_decide (is_Some (contact_db rd))));
         ("hasSessionDb", JBool (bool_decide (is_Some (session_db rd))));
         ("messageDbCount", JInt (Z.of_nat (length (message_dbs rd))));
         ("contactCount", JInt (Z.of_nat (size (contacts_map rd))));
         ("dbVersion", JInt 4) ].

(** [d[key]] on a JSON object *)
Definition field (key : string) (d : json) : option json :=
  match d with
  | JObj fields => snd <$> find (λ kv, String.eqb (fst kv) key) fields
  | _ => None
  end.

(** * Contacts and groups *)

(** [contacts.append(c)] then [self.contacts_map[wxid] = c], where the
    list is the method's local. *)
Definition append_and_register (c : Contact) : M (Proc * list Contact) unit :=
  local_modify (λ l, l ++ [c]);;
  outer (modify (with_self (register_contact c))).

(** Body of the loop over the new-schema contact rows.  [wxid.endswith]
    raises [AttributeError] when [username] is [NULL]. *)
Definition contact_of_v4 (row : RowV4.t) : M (Proc * list Contact) unit :=
  wxid ← match RowV4.username row with
         | Some w => mret w
         | None =>
           raise (AttributeError
                    "'NoneType' object has no attribute 'endswith'")
         end;
  append_and_register
    {| wxid := wxid;
       nickname := str_or (RowV4.nick_name row) wxid;
       remark := str_or (RowV4.remark row) (str_or (RowV4.nick_name row) wxid);
       alias := str_or (RowV4.alias row) "";
       small_head_img_url := str_or (RowV4.small_head_url row) "";
       type := "friend";
       is_chatroom := endswith wxid "@chatroom";
       member_count := 0 |}.

(** Body of the loop over the old-schema rows; [chatroom] is [None] in
    [get_contacts], where the flag is computed from the identifier, and
    [Some True] in [get_groups]. *)
Definition contact_of_old (chatroom : option bool) (row : RowOld.t)
    : M (Proc * list Contact) unit :=
  let wxid := RowOld.UserName row in
  append_and_register
    {| wxid := wxid;
       nickname := str_or (RowOld.NickName row) wxid;
       remark := str_or (RowOld.Remark row)
                   (str_or (RowOld.NickName row) wxid);
       alias := str_or (RowOld.Alias row) "";
       small_head_img_url := "";
       type := "friend";
       is_chatroom := default (endswith wxid "@chatroom") chatroom;
       member_count := 0 |}.

(** [WeChatDatabaseV4.get_contacts] *)
Definition get_contacts : M Proc (list Contact) :=
  p ← get_state;
  match contact_db (self p) with
  | None => mret []
  | Some db =>
    '(_, contacts) ←
      with_local []
        (try_except
           (try_except
              (cursor ← outer (execute db QContactsV4 (contacts_v4 db));
               rows ← fetchall cursor;
               for_each rows contact_of_v4)
              is_OperationalError
              (λ _,
               cursor ← outer (execute db QContactsOld (contacts_old db));
               rows ← fetchall cursor;
               for_each rows (contact_of_old None)))
           is_Exception
           (λ e, outer (eprint ("Error getting contacts: " +:+ exn_str e))));
    mret contacts
  end.

(** [WeChatDatabaseV4._get_chatroom_member_count]: every path returns 0;
    the handler takes [sqlite3.Error] (no statement here raises
    [KeyError]). *)
Definition _get_chatroom_member_count (db : Connection)
    (chatroom_name : string) : M Proc Z :=
  try_except
    (cursor ← execute db (QChatRoomExt chatroom_name)
                (chat_room_ext db chatroom_name);
     row ← fetchone cursor;
     mret 0)
    is_sqlite3_Error
    (λ _, mret 0).

(** Body of the loop over the new-schema group rows. *)
Definition group_of_v4 (db : Connection) (row : GroupV4.t)
    : M (Proc * list Contact) unit :=
  let wxid := GroupV4.username row in
  member_count ← outer (_get_chatroom_member_count db wxid);
  append_and_register
    {| wxid := wxid;
       nickname := str_or (GroupV4.nick_name row) wxid;
       remark := str_or (GroupV4.remark row)
                   (str_or (GroupV4.nick_name row) wxid);
       alias := str_or (GroupV4.alias row) "";
       small_head_img_url := str_or (GroupV4.small_head_url row) "";
       type := "friend";
       is_chatroom := true;
       member_count := member_count |}.

(** [WeChatDatabaseV4.get_groups] *)
Definition get_groups : M Proc (list Contact) :=
  p ← get_state;
  match contact_db (self p) with
  | None => mret []
  | Some db =>
    '(_, groups) ←
      with_local []
        (try_except
           (try_except
              (cursor ← outer (execute db QGroupsV4 (groups_v4 db));
               rows ← fetchall cursor;
               for_each rows (group_of_v4 db))
              is_OperationalError
              (λ _,
               cursor ← outer (execute db QGroupsOld (groups_old db));
               rows ← fetchall cursor;
               for_each rows (contact_of_old (Some true))))
           is_Exception
           (λ e, outer (eprint ("Error getting groups: " +:+ exn_str e))));
    mret groups
  end.

(** [Contact.to_dict] *)
Definition Contact_to_dict (c : Contact) : json :=
  JObj [ ("id", JStr (wxid c));
         ("name",
          JStr (if negb (String.eqb (remark c) "") then remark c
                else if negb (String.eqb (nickname c) "") then nickname c
                else wxid c));
         ("alias", JStr (alias c));
         ("avatar",
          if String.eqb (small_head_img_url c) "" then JNull
          else JStr (small_head_img_url c));
         ("type", JStr (if is_chatroom c then "group" else "friend"));
         ("memberCount", JInt (member_count c)) ].

(** [Message.to_dict(contact_map)]; the sender of a message of the local
    user is the word for "me" (U+6211). *)
Definition Message_to_dict (contact_map : gmap string string) (m : Message)
    : json :=
  let sender_name :=
    if is_sender m then string_of_list_byte [xe6; x88; x91]
    else if bool_decide (contact_map = ∅) then sender_username m
    else default (sender_username m) (contact_map !! sender_username m) in
  JObj [ ("id", JStr ("msg_" +:+ str_of_int (local_id m)));
         ("chatId", JStr (talker m));
         ("sender", JStr sender_name);
         ("content", JStr (content m));
         ("timestamp", JInt (create_time m * 1000));
         ("type", JStr (_get_type_name m));
         ("isMe", JBool (is_sender m)) ].

(** * The command surface *)

(** The [init] command of [main], after the argument check and the
    creation of the reader. *)
Definition cmd_init (env : Env) : M Proc unit :=
  success ← init_database env;
  p ← get_state;
  print_json (JObj [("success", JBool success);
                    ("status", get_status (self p))]).

(** The [contacts] command of [main]. *)
Definition cmd_contacts (env : Env) : M Proc unit :=
  ok ← init_database env;
  if (ok : bool) then
    contacts ← get_contacts;
    let contacts := filter (λ c, is_chatroom c = false) contacts in
    print_json (JList (map Contact_to_dict contacts))
  else print_json (JList []).

(** The [groups] command of [main]. *)
Definition cmd_groups (env : Env) : M Proc unit :=
  ok ← init_database env;
  if (ok : bool) then
    groups ← get_groups;
    print_json (JList (map Contact_to_dict groups))
  else print_json (JList []).

(** The [messages] command of [main], once its numbers are parsed. *)
Definition cmd_messages (env : Env) (username : string)
    (limit offset start_time : Z) : M Proc unit :=
  ok ← init_database env;
  if (ok : bool) then
    get_contacts;;
    get_groups;;
    p ← get_state;
    let contact_map :=
      (λ c, if String.eqb (remark c) "" then nickname c else remark c)
        <$> contacts_map (self p) in
    '(messages, total) ← get_messages env username limit offset start_time;
    print_json (JObj [("messages",
                       JList (map (Message_to_dict contact_map) messages));
                      ("total", JInt (Z.of_nat total));
                      ("hasMore",
                       JBool (offset + limit <? Z.of_nat total))])
  else print_json (JObj [("messages", JList []); ("total", JInt 0);
                         ("hasMore", JBool false)]).

(** The [status] command of [main]. *)
Definition cmd_status (env : Env) : M Proc unit :=
  init_database env;;
  p ← get_state;
  print_json (get_status (self p)).

(** Running a command of the process started on [db_dir]. *)
Definition run {A} (dir : string) (m : M Proc A) : Res A * Proc :=
  m (start dir).

(** [reader = WeChatDatabaseV4(db_dir)] *)
Definition WeChatDatabaseV4 (dir : string) : M Proc unit :=
  modify (with_self (λ _, new_reader dir)).

(** [print(json.dumps({'error': msg}))] then [sys.exit(1)] *)
Definition usage_error (msg : string) : M Proc Z :=
  print_json (JObj [("error", JStr msg)]);;
  mret 1.

(** [main], on [sys.argv]; the value is the exit status.  Closing the
    connections at the end of a command changes nothing that is
    observed here and is left out. *)
Definition main (env : Env) (argv : list string) : M Proc Z :=
  match argv with
  | [] | [_] => usage_error "Usage: wechat_reader.py <command> [args...]"
  | _ :: command :: args =>
    if String.eqb command "init" then
      match args with
      | [] => usage_error "Missing db_dir argument"
      | dir :: _ => WeChatDatabaseV4 dir;; cmd_init env;; mret 0
      end
    else if String.eqb command "contacts" then
      match args with
      | [] => usage_error "Missing db_dir argument"
      | dir :: _ => WeChatDatabaseV4 dir;; cmd_contacts env;; mret 0
      end
    else if String.eqb command "groups" then
      match args with
      | [] => usage_error "Missing db_dir argument"
      | dir :: _ => WeChatDatabaseV4 dir;; cmd_groups env;; mret 0
      end
    else if String.eqb command "messages" then
      match args with
      | dir :: username :: rest =>
        limit ← match rest with
                | a :: _ => lift (int_of_str env a)
                | [] => mret 100
                end;
        offset ← match rest with
                 | _ :: a :: _ => lift (int_of_str env a)
                 | _ => mret 0
                 end;
        start_time ← match rest with
                     | _ :: _ :: a :: _ => lift (int_of_str env a)
                     | _ => mret 0
                     end;
        WeChatDatabaseV4 dir;;
        cmd_messages env username limit offset start_time;;
        mret 0
      | _ => usage_error "Missing arguments: db_dir, username"
      end
    else if String.eqb command "status" then
      match args with
      | [] => usage_error "Missing db_dir argument"
      | dir :: _ => WeChatDatabaseV4 dir;; cmd_status env;; mret 0
      end
    else usage_error ("Unknown command: " +:+ command)
  end.

(** The process when [main] starts: nothing printed, no reader yet. *)
Definition boot : Proc := start "".

(** * A model of the storage root

    Database files, directories with their entries, and the [username]
    field of [info.json] files; the environment they give the reader. *)
Module Disk.
Record t : Type := {
  files : list Sqlite.File;
  dirs : list (string * list string);
  infos : list (string * string)
}.

Definition find_file (d : t) (path : string) : option Sqlite.File :=
  find (λ f, String.eqb (Sqlite.path f) path) (files d).

Definition exists_ (d : t) (path : string) : bool :=
  bool_decide (is_Some (find_file d path))
  || bool_decide (is_Some (Sqlite.lookup path (dirs d)))
  || bool_decide (is_Some (Sqlite.lookup path (infos d))).

(** [int(s)] on plain decimal numerals, with an optional minus sign. *)
Fixpoint digits_value (acc : Z) (l : list ascii) : option Z :=
  match l with
  | [] => Some acc
  | c :: l' =>
    let n := Z.of_nat (nat_of_ascii c) in
    if (48 <=? n) && (n <=? 57) then digits_value (10 * acc + (n - 48)) l'
    else None
  end.

Definition parse_int (s : string) : Res Z :=
  let invalid :=
    Exn (ValueError ("invalid literal for int() with base 10: " +:+ s)) in
  match list_ascii_of_string s with
  | [] => invalid
  | c :: ds =>
    if Ascii.eqb c "-" then
      match ds with
      | [] => invalid
      | _ :: _ =>
        match digits_value 0 ds with Some n => Val (- n) | None => invalid end
      end
    else
      match digits_value 0 (c :: ds) with
      | Some n => Val n
      | None => invalid
      end
  end.

Definition env (d : t) (zstd : option (list byte → Res (list byte))) : Env :=
  {| path_exists := exists_ d;
     listdir path :=
       match Sqlite.lookup path (dirs d) with
       | Some entries => Val entries
       | None => Exn (OSError ("No such directory: " +:+ path))
       end;
     sqlite3_connect path :=
       match find_file d path with
       | Some f => Val (Sqlite.connect f)
       | None => Exn (OperationalError "unable to open database file")
       end;
     info_username path :=
       match Sqlite.lookup path (infos d) with
       | Some name => Val name
       | None => Exn (OSError ("No such file: " +:+ path))
       end;
     zstandard := zstd;
     int_of_str := parse_int |}.
End Disk.

(** * Reasoning about [M]

    [wp m Q s]: running [m] from [s] ends in a result and a state that
    satisfy [Q]. *)
Definition wp {S A} (m : M S A) (Q : Res A → S → Prop) (s : S) : Prop :=
  Q (m s).1 (m s).2.
Global Arguments wp : simpl never.

(** * Declarative descriptions used in the statements *)

(** What [decode_content] makes of a payload once the fallbacks are
    resolved: the best-effort text of a [bytes] payload, ... *)
Definition best_effort (raw : list byte) : string :=
  match codecs.utf8_decode codecs.ignore raw with
  | Val kept => string_of_list_byte kept
  | Exn _ => ""
  end.

(** ... and the text of any payload. *)
Definition content_text (env : Env) (raw : pyval) : string :=
  match raw with
  | PyStr s => s
  | PyBytes b =>
    match zstandard env with
    | Some decompress =>
      match decompress b with
      | Val data =>
        match codecs.decode codecs.strict data with
        | Val s => s
        | Exn _ => best_effort b
        end
      | Exn _ => best_effort b
      end
    | None => best_effort b
    end
  | _ => ""
  end.

(** The message [message_of_row] returns. *)
Definition row_message (env : Env) (username : string) (row : MsgRow.t)
    : Message :=
  {| local_id := MsgRow.local_id row;
     server_id := default 0 (MsgRow.server_id row);
     msg_type := MsgRow.local_type row;
     sender_username := default "" (MsgRow.sender_username row);
     create_time := MsgRow.create_time row;
     content := content_text env (MsgRow.message_content row);
     is_sender := negb (MsgRow.is_sender row =? 0);
     talker := username |}.

(** The error a statement ends in, at [execute] or at the fetch. *)
Definition query_error {R} (answer : Res (Cursor R)) : option exn :=
  match answer with
  | Exn e | Val (Exn e) => Some e
  | Val (Val _) => None
  end.

(** The rows one shard yields for a conversation, or the exception that
    makes the reader skip it: the table probe, then the joined statement,
    replaced by the reduced one when it raises [OperationalError]. *)
Definition shard_rows (env : Env) (rd : Reader) (table_name : string)
    (limit offset start_time : Z) (db : Connection) : Res (list MsgRow.t) :=
  match table_exists db table_name with
  | Exn e | Val (Exn e) => Exn e
  | Val (Val []) => Val []
  | Val (Val (_ :: _)) =>
    let since := since_of start_time in
    let cursor :=
      match messages_joined db table_name (_get_my_wxid env rd)
              since limit offset with
      | Exn e =>
        if is_OperationalError e
        then messages_plain db table_name since limit offset
        else Exn e
      | Val c => Val c
      end in
    match cursor with
    | Exn e | Val (Exn e) => Exn e
    | Val (Val rows) => Val rows
    end
  end.

(** The messages a shard adds to [all_messages] ... *)
Definition shard_messages (env : Env) (rd : Reader)
    (table_name username : string) (limit offset start_time : Z)
    (db : Connection) : list Message :=
  match shard_rows env rd table_name limit offset start_time db with
  | Val rows => map (row_message env username) rows
  | Exn _ => []
  end.

(** ... and the warning it adds to [sys.stderr]. *)
Definition shard_warning (env : Env) (rd : Reader) (table_name : string)
    (limit offset start_time : Z) (db : Connection) : list string :=
  match shard_rows env rd table_name limit offset start_time db with
  | Val _ => []
  | Exn e =>
    ["Error getting messages from " +:+ conn_repr db +:+ ": " +:+ exn_str e]
  end.


(** The shard files [init_database] locates, in the order it opens them,
    or the exception of the directory listing. *)
Fixpoint numbered_paths (env : Env) (dir : string) (i count : nat)
    : list string :=
  match count with
  | O => []
  | S count' =>
    let path := path_join dir ["message_" +:+ str_of_nat i +:+ ".db"] in
    if path_exists env path then
      path :: numbered_paths env dir (S i) count'
    else []
  end.

Global Arguments numbered_paths : simpl never.

Definition shard_paths (env : Env) (dir : string) : Res (list string) :=
  if path_exists env (path_join dir ["message_0.db"]) then
    Val (numbered_paths env dir 0 100)
  else if path_exists env (path_join dir ["message"]) then
    Val (numbered_paths env (path_join dir ["message"]) 0 100)
  else if path_exists env (path_join dir ["Msg"]) then
    match listdir env (path_join dir ["Msg"]) with
    | Val names =>
      Val (map (λ name, path_join (path_join dir ["Msg"]) [name])
             (List.filter
                (λ name, startswith name "MSG" && endswith name ".db")
                names))
    | Exn e => Exn e
    end
  else Val [].

(** The connection [init_database] keeps as the contact store: the one
    to the first candidate that exists, when opening it does not raise. *)
Definition contact_conn (env : Env) (dir : string) : option Connection :=
  match find (path_exists env) (contact_candidates dir) with
  | Some path =>
    match sqlite3_connect env path with
    | Val db => Some db
    | Exn _ => None
    end
  | None => None
  end.

(** Opening the session store, when there is one, does not raise. *)
Definition session_opens (env : Env) (dir : string) : Prop :=
  ∀ path, find (path_exists env) (session_candidates dir) = Some path →
          ∃ db, sqlite3_connect env path = Val db.

(** The reader with another list of shards. *)
Definition set_message_dbs (dbs : list Connection) (rd : Reader) : Reader :=
  {| db_dir := db_dir rd; contact_db := contact_db rd;
     session_db := session_db rd; message_dbs := dbs;
     contacts_map := contacts_map rd; _initialized := _initialized rd |}.

(** The rows a database file yields for a conversation: nothing when it
    is not a database or lacks the table, and otherwise the window of the
    statement, joined when [Name2Id] is there and reduced when not. *)
Definition file_rows (my_wxid table_name : string) (since : option Z)
    (limit offset : Z) (f : Sqlite.File) : list MsgRow.t :=
  if Sqlite.corrupt f then []
  else
    match Sqlite.lookup table_name (Sqlite.msg_tables f) with
    | None => []
    | Some rows =>
      Sqlite.select_messages
        match Sqlite.Name2Id f with
        | Some names => Sqlite.joined_row names my_wxid
        | None => Sqlite.plain_row
        end
        since limit offset rows
    end.

(** The file is a database that holds the table. *)
Definition holds_table (table_name : string) (f : Sqlite.File) : bool :=
  negb (Sqlite.corrupt f)
  && bool_decide (is_Some (Sqlite.lookup table_name (Sqlite.msg_tables f))).

(** * Sample stores *)

Module Sample.
Definition msg (id time : Z) (payload : pyval) : Sqlite.StoredMsg :=
  {| Sqlite.local_id := id; Sqlite.server_id := None;
     Sqlite.local_type := 1; Sqlite.real_sender_id := 1;
     Sqlite.create_time := time; Sqlite.message_content := payload |}.

Definition shard (path table : string) (rows : list Sqlite.StoredMsg)
    : Sqlite.File :=
  {| Sqlite.path := path; Sqlite.corrupt := false;
     Sqlite.msg_tables := [(table, rows)];
     Sqlite.Name2Id := Some [(1, "alice")];
     Sqlite.contact := Sqlite.NoContactTable;
     Sqlite.chat_room := None |}.

Definition person (name : string) (local_type : Z) : Sqlite.ContactRec :=
  {| Sqlite.username := Some name; Sqlite.alias := None;
     Sqlite.local_type_c := local_type; Sqlite.remark := None;
     Sqlite.nick_name := None; Sqlite.small_head_url := None |}.

Definition contact_store (path : string) (rows : list Sqlite.ContactRec)
    : Sqlite.File :=
  {| Sqlite.path := path; Sqlite.corrupt := false;
     Sqlite.msg_tables := []; Sqlite.Name2Id := None;
     Sqlite.contact := Sqlite.ContactV4 rows;
     Sqlite.chat_room := None |}.

Definition alice_table : string := "Msg_6384e2b2184bcbf58eccf10ca7a6563c".

(** A root with a new-schema contact store and one shard holding the
    conversation of [alice], rows at times 100 and 50. *)
Definition alice_disk : Disk.t :=
  {| Disk.files :=
       [ contact_store "/r/contact/contact.db" [person "alice" 1];
         shard "/r/message_0.db" alice_table
           [msg 1 100 (PyStr "later"); msg 2 50 (PyStr "earlier")] ];
     Disk.dirs := [("/r/contact", ["contact.db"])];
     Disk.infos := [] |}.

(** A root with two shards that both hold the conversation, and one
    file that is not a database. *)
Definition two_shards : Disk.t :=
  {| Disk.files :=
       [ contact_store "/r/contact.db" [];
         shard "/r/message_0.db" alice_table
           [msg 1 10 (PyStr "a"); msg 2 30 (PyStr "c")];
         {| Sqlite.path := "/r/message_1.db"; Sqlite.corrupt := true;
            Sqlite.msg_tables := []; Sqlite.Name2Id := None;
            Sqlite.contact := Sqlite.NoContactTable;
            Sqlite.chat_room := None |};
         shard "/r/message_2.db" alice_table
           [msg 1 20 (PyStr "b"); msg 2 40 (PyStr "d")] ];
     Disk.dirs := [];
     Disk.infos := [] |}.

(** A root with shards and no contact store. *)
Definition shards_only : Disk.t :=
  {| Disk.files := [ shard "/r/message_0.db" alice_table [] ];
     Disk.dirs := [];
     Disk.infos := [] |}.


(** A contact store whose [contact] table lists a chat room. *)
Definition with_chatroom : Disk.t :=
  {| Disk.files :=
       [ contact_store "/r/contact.db"
           [person "bob" 1; person "123@chatroom" 2] ];
     Disk.dirs := [];
     Disk.infos := [] |}.





(** A root with an old-schema store only, holding an official account, a
    person and a chat room. *)
Definition old_person (name : string) : Sqlite.OldContactRec :=
  {| Sqlite.UserName := name; Sqlite.Alias := None;
     Sqlite.NickName := None; Sqlite.Type_ := 1; Sqlite.Remark := None |}.

Definition old_store : Sqlite.File :=
  {| Sqlite.path := "/r/MicroMsg.db"; Sqlite.corrupt := false;
     Sqlite.msg_tables := []; Sqlite.Name2Id := None;
     Sqlite.contact :=
       Sqlite.ContactOld
         [old_person "gh_news"; old_person "carol"; old_person "9@chatroom"];
     Sqlite.chat_room := None |}.

Definition old_disk : Disk.t :=
  {| Disk.files := [old_store]; Disk.dirs := []; Disk.infos := [] |}.

(** A root whose old-schema store lists an official account only. *)
Definition gh_only_disk : Disk.t :=
  {| Disk.files :=
       [ {| Sqlite.path := "/r/MicroMsg.db"; Sqlite.corrupt := false;
            Sqlite.msg_tables := []; Sqlite.Name2Id := None;
            Sqlite.contact := Sqlite.ContactOld [old_person "gh_news"];
            Sqlite.chat_room := None |} ];
     Disk.dirs := []; Disk.infos := [] |}.

(** A decompressor that rejects every frame, and one that hands its
    input back. *)
Definition rejecting : list byte → Res (list byte) :=
  λ _, Exn (ZstdError "Unknown frame descriptor").

Definition passing : list byte → Res (list byte) := λ b, Val b.

(** The process after [init_database] on a root. *)
Definition opened (d : Disk.t) : Proc :=
  (run "/r" (init_database (Disk.env d None))).2.

Definition voip_message : Message :=
  {| local_id := 7; server_id := 0; msg_type := MessageType.VOIP;
     sender_username := "alice"; create_time := 1700000000;
     content := ""; is_sender := false; talker := "alice" |}.
End Sample.

(** * Further descriptions *)



(** The row a file's message statement yields for a stored message. *)
Definition file_row (my_wxid : string) (f : Sqlite.File)
    : Sqlite.StoredMsg → MsgRow.t :=
  match Sqlite.Name2Id f with
  | Some names => Sqlite.joined_row names my_wxid
  | None => Sqlite.plain_row
  end.

(** What opening the files [paths] one after the other gives: the
    connections made before the first failure, and that failure. *)
Fixpoint connect_all (env : Env) (paths : list string)
    : list Connection * option exn :=
  match paths with
  | [] => ([], None)
  | path :: rest =>
    match sqlite3_connect env path with
    | Val db =>
      let '(dbs, err) := connect_all env rest in (db :: dbs, err)
    | Exn e => ([], Some e)
    end
  end.

(** How a block ends that raised [err], if anything. *)
Definition outcome_of (err : option exn) : Res unit :=
  match err with None => Val tt | Some e => Exn e end.

(** The process after [self.message_dbs.append(db)] for each of [dbs]. *)
Definition with_shards (dbs : list Connection) (p : Proc) : Proc :=
  fold_left (λ p db, with_self (append_message_db db) p) dbs p.

(** Opening the contact store, when there is one, does not raise. *)
Definition contact_opens (env : Env) (dir : string) : Prop :=
  ∀ path, find (path_exists env) (contact_candidates dir) = Some path →
          ∃ db, sqlite3_connect env path = Val db.



(** The reader after [self.contacts_map[c.wxid] = c] for each of [cs],
    in this order. *)
Definition registered (cs : list Contact) (rd : Reader) : Reader :=
  fold_left (λ rd c, register_contact c rd) cs rd.

(** Every record of the registry sits under its own identifier. *)
Definition keyed_by_wxid (m : gmap string Contact) : Prop :=
  ∀ k c, m !! k = Some c → wxid c = k.

(** A record whose names are filled in: only an empty identifier leaves
    the remark or the nickname empty. *)
Definition named (c : Contact) : Prop :=
  wxid c ≠ "" → remark c ≠ "" ∧ nickname c ≠ "".

(** What the scan of [get_contacts] makes of a row, and the scan of
    [get_groups]. *)
Definition contact_shape (c : Contact) : Prop :=
  is_chatroom c = endswith (wxid c) "@chatroom"
  ∧ member_count c = 0 ∧ type c = "friend" ∧ named c.

Definition group_shape (c : Contact) : Prop :=
  is_chatroom c = true
  ∧ member_count c = 0 ∧ type c = "friend" ∧ named c.

(** The state of a scan that started in [p0]: nothing was printed, and
    the reader is the one of [p0] with the records collected so far
    registered. *)
Definition scan_inv (P : Contact → Prop) (p0 : Proc)
    (st : Proc * list Contact) : Prop :=
  stderr st.1 = stderr p0 ∧ stdout st.1 = stdout p0
  ∧ self st.1 = registered st.2 (self p0) ∧ Forall P st.2.

(** [c.remark or c.nickname] *)
Definition display (c : Contact) : string :=
  if String.eqb (remark c) "" then nickname c else remark c.

(** [{c.wxid: c.remark or c.nickname for c in values}], the values taken
    in the given order. *)
Definition name_map (values : list Contact) : gmap string string :=
  fold_left (λ acc c, <[wxid c := display c]> acc) values ∅.

(** * Further sample stores *)

Module Fixture.

(** A root in which [message_1.db] is a directory: it exists and cannot
    be opened as a database. *)
Definition shard_is_directory : Disk.t :=
  {| Disk.files :=
       [ Sample.contact_store "/r/contact.db" [];
         Sample.shard "/r/message_0.db" Sample.alice_table [] ];
     Disk.dirs := [("/r/message_1.db", [])];
     Disk.infos := [] |}.


(** A contact store whose second row has no [username]. *)
Definition null_username : Disk.t :=
  {| Disk.files :=
       [ Sample.contact_store "/r/contact.db"
           [ Sample.person "alice" 1;
             {| Sqlite.username := None; Sqlite.alias := None;
                Sqlite.local_type_c := 1; Sqlite.remark := None;
                Sqlite.nick_name := None; Sqlite.small_head_url := None |};
             Sample.person "bob" 1 ] ];
     Disk.dirs := [];
     Disk.infos := [] |}.
End Fixture.

(** * Properties

    The rules for reasoning about [M] and the facts on sorting come
    first.  Then, in this order: the names of message types; the digest,
    the shape of the derived table names and the check on names; the
    decoding of payloads; [get_messages], for every connection and for
    stores with known contents; the opening of the stores and the status;
    contacts, groups and the [contacts] command; and last the scenarios
    of the specification, run on sample stores. *)

(** ** The execution monad *)

Section WpRules.
Context {S : Type}.
Implicit Types s : S.

Lemma wp_run {A} (m : M S A) Q s :
  wp m Q s ↔ ∀ r s', m s = (r, s') → Q r s'.
Proof.
  unfold wp. split.
  - intros H r s' E. rewrite E in H. exact H.
  - intros H. apply H. destruct (m s); reflexivity.
Qed.

Lemma wp_mono {A} (m : M S A) (Q Q' : Res A → S → Prop) s :
  (∀ r s', Q r s' → Q' r s') → wp m Q s → wp m Q' s.
Proof. unfold wp. auto. Qed.

Lemma wp_ret {A} (a : A) (Q : Res A → S → Prop) s :
  Q (Val a) s → wp (mret a) Q s.
Proof. exact id. Qed.

Lemma wp_raise {A} e (Q : Res A → S → Prop) s :
  Q (Exn e) s → wp (raise e) Q s.
Proof. exact id. Qed.

Lemma wp_lift {A} (r : Res A) (Q : Res A → S → Prop) s :
  Q r s → wp (lift r) Q s.
Proof. exact id. Qed.

Lemma wp_get (Q : Res S → S → Prop) s : Q (Val s) s → wp get_state Q s.
Proof. exact id. Qed.

Lemma wp_modify f (Q : Res unit → S → Prop) s :
  Q (Val tt) (f s) → wp (modify f) Q s.
Proof. exact id. Qed.

Lemma wp_bind {A B} (m : M S A) (f : A → M S B) Q s :
  wp m (λ r s', match r with
                | Val a => wp (f a) Q s'
                | Exn e => Q (Exn e) s'
                end) s →
  wp (m ≫= f) Q s.
Proof.
  unfold wp, mbind, M_bind, bind. destruct (m s) as [[a|e] s']; auto.
Qed.

Lemma wp_try {A} (body : M S A) (catches : exn → bool) handler Q s :
  wp body (λ r s', match r with
                   | Val a => Q (Val a) s'
                   | Exn e => if catches e then wp (handler e) Q s'
                              else Q (Exn e) s'
                   end) s →
  wp (try_except body catches handler) Q s.
Proof.
  unfold wp, try_except. destruct (body s) as [[a|e] s']; simpl; auto.
  destruct (catches e); auto.
Qed.

Lemma wp_for_each {A} (xs : list A) (body : A → M S unit)
    (I : list A → S → Prop) Q s :
  I xs s →
  (∀ x rest s', I (x :: rest) s' →
     wp (body x) (λ r s'', match r with
                           | Val _ => I rest s''
                           | Exn e => Q (Exn e) s''
                           end) s') →
  (∀ s', I [] s' → Q (Val tt) s') →
  wp (for_each xs body) Q s.
Proof.
  intros HI Hbody Hend. revert s HI.
  induction xs as [|x xs IH]; intros s HI; simpl.
  - apply wp_ret. auto.
  - apply (wp_bind (body x)). eapply wp_mono; [|apply Hbody, HI].
    intros [[]|e] s'; auto.
Qed.

Lemma wp_val_elim {A} (m : M S A) (a : A) (P : S → Prop) s :
  wp m (λ r s', r = Val a ∧ P s') s → ∃ s', m s = (Val a, s') ∧ P s'.
Proof.
  unfold wp. destruct (m s) as [r s']; simpl. intros [-> H]. eauto.
Qed.

Lemma wp_val_elim_ex {A} (m : M S A) (P : A → S → Prop) s :
  wp m (λ r s', ∃ a, r = Val a ∧ P a s') s →
  ∃ a s', m s = (Val a, s') ∧ P a s'.
Proof.
  unfold wp. destruct (m s) as [r s']; simpl. intros (a & -> & H). eauto.
Qed.

(** A loop whose body keeps [I] and raises only exceptions in [E]. *)
Lemma wp_for_each_inv {A} (xs : list A) (body : A → M S unit)
    (I : S → Prop) (E : exn → Prop) s :
  I s →
  (∀ x s', I s' →
     wp (body x) (λ r s'', I s'' ∧ match r with
                                   | Val _ => True
                                   | Exn e => E e
                                   end) s') →
  wp (for_each xs body)
     (λ r s', I s' ∧ match r with Val _ => True | Exn e => E e end) s.
Proof.
  intros HI Hbody.
  apply (wp_for_each xs body (λ _, I)); [done| |by intros s' Hs'].
  intros x rest s' Hs'. eapply wp_mono; [|by apply Hbody].
  intros [[]|e] s'' [? ?]; done.
Qed.
End WpRules.

Section WpLocals.
Context {S L : Type}.

Lemma wp_outer {A} (m : M S A) (Q : Res A → S * L → Prop) s l :
  wp m (λ r s', Q r (s', l)) s → wp (outer m) Q (s, l).
Proof. unfold wp, outer. simpl. destruct (m s); auto. Qed.

Lemma wp_local_modify (f : L → L) (Q : Res unit → S * L → Prop) s l :
  Q (Val tt) (s, f l) → wp (local_modify f) Q (s, l).
Proof. exact id. Qed.

Lemma wp_with_local {A} (init : L) (m : M (S * L) A)
    (Q : Res (A * L) → S → Prop) s :
  wp m (λ r sl, match r with
                | Val a => Q (Val (a, sl.2)) sl.1
                | Exn e => Q (Exn e) sl.1
                end) (s, init) →
  wp (with_local init m) Q s.
Proof.
  unfold wp, with_local. destruct (m (s, init)) as [[a|e] [s' l]]; auto.
Qed.
End WpLocals.

(** ** Sorting *)

Section SortFacts.
Context {A : Type} (key : A → Z).

Lemma insert_sorted_perm x l : insert_sorted (λ a b, key a <=? key b) x l ≡ₚ x :: l.
Proof.
  induction l as [|y l IH]; simpl; [done|].
  destruct (key x <=? key y); [done|]. rewrite IH. apply Permutation_swap.
Qed.

Lemma list_sort_perm l : list_sort key l ≡ₚ l.
Proof.
  unfold list_sort. induction l as [|x l IH]; simpl; [done|].
  rewrite insert_sorted_perm. by constructor.
Qed.

Lemma list_sort_length l : length (list_sort key l) = length l.
Proof. apply Permutation_length, list_sort_perm. Qed.

Lemma list_sort_nil_inv l : list_sort key l = [] → l = [].
Proof.
  intros H. apply Permutation_nil_r. rewrite <- H. symmetry.
  apply list_sort_perm.
Qed.





End SortFacts.

(** ** Message type names *)

Lemma get_type_name_listed (m : Message) :
  (msg_type m = 1 → _get_type_name m = "text")
  ∧ (msg_type m = 3 → _get_type_name m = "image")
  ∧ (msg_type m = 34 → _get_type_name m = "voice")
  ∧ (msg_type m = 42 → _get_type_name m = "contact")
  ∧ (msg_type m = 43 → _get_type_name m = "video")
  ∧ (msg_type m = 47 → _get_type_name m = "emoji")
  ∧ (msg_type m = 48 → _get_type_name m = "location")
  ∧ (msg_type m = 49 → _get_type_name m = "link")
  ∧ (msg_type m = 10000 → _get_type_name m = "system")
  ∧ (msg_type m = 10002 → _get_type_name m = "revoke").
Proof. unfold _get_type_name. repeat split; intros ->; reflexivity. Qed.

Lemma get_type_name_unlisted (m : Message) :
  msg_type m ∉ [1; 3; 34; 42; 43; 47; 48; 49; 10000; 10002] →
  _get_type_name m = "unknown".
Proof.
  intros H. unfold _get_type_name, type_names. simpl.
  rewrite !lookup_insert_ne, lookup_empty; [done|..];
    intros E; apply H; rewrite <- E;
    unfold MessageType.TEXT, MessageType.IMAGE, MessageType.VOICE,
      MessageType.CONTACT_CARD, MessageType.VIDEO, MessageType.EMOJI,
      MessageType.LOCATION, MessageType.LINK, MessageType.SYSTEM,
      MessageType.REVOKE; apply list_elem_of_In; simpl; auto 20.
Qed.

(** C7.  The table of [_get_type_name] has no entry for [VOIP], the code
    50 of [MessageType]: a message of that type renders as 'unknown', not
    as 'voip'. *)
Theorem voip_renders_unknown (m : Message) :
  msg_type m = MessageType.VOIP → _get_type_name m = "unknown".
Proof.
  intros H. apply get_type_name_unlisted. rewrite H.
  unfold MessageType.VOIP. rewrite list_elem_of_In. simpl. lia.
Qed.

Lemma voip_renders_unknown_witness :
  msg_type Sample.voip_message = MessageType.VOIP
  ∧ _get_type_name Sample.voip_message = "unknown".
Proof.
  split; [reflexivity|]. apply (voip_renders_unknown Sample.voip_message).
  reflexivity.
Defined.

(** ** The digest and the table name *)

Example md5_empty :
  hashlib.md5_hexdigest [] = "d41d8cd98f00b204e9800998ecf8427e".
Proof. vm_compute. reflexivity. Qed.

Example md5_alice : table_name_of "alice" = Sample.alice_table.
Proof. vm_compute. reflexivity. Qed.

(** An input of several blocks, with quotes and a semicolon in it. *)
Example md5_two_blocks :
  hashlib.md5_hexdigest
    (str_encode_utf8
       "x'; DROP TABLE Msg; -- 0123456789012345678901234567890123456789012345678901234567890123456789")
  = "c4ba968f2d0d497c69e96b7bbaf0b6cb".
Proof. vm_compute. reflexivity. Qed.

Lemma le_bytes_length n x : length (hashlib.le_bytes n x) = n.
Proof. revert x. induction n as [|n IH]; intros x; simpl; [done|]. by rewrite IH. Qed.

Lemma le_bytes_range n x :
  Forall (λ b, 0 ≤ b < 256) (hashlib.le_bytes n x).
Proof.
  revert x. induction n as [|n IH]; intros x; simpl; constructor; [|apply IH].
  apply Z.mod_pos_bound. lia.
Qed.

(** The fuel of [blocks] is enough: no byte of the padded message is
    left out. *)
Lemma blocks_concat n (l : list Z) :
  (length l ≤ n)%nat → concat (hashlib.blocks n l) = l.
Proof.
  revert l. induction n as [|n IH]; intros l Hlen.
  - destruct l; [done|simpl in Hlen; lia].
  - destruct l as [|x l]; [done|].
    change (hashlib.blocks (S n) (x :: l))
      with (take 64 (x :: l) :: hashlib.blocks n (drop 64 (x :: l))).
    cbn [concat]. rewrite IH.
    + apply take_drop.
    + rewrite length_drop. simpl in *. lia.
Qed.

(** The padded message is a whole number of blocks. *)
Lemma pad_length (msg : list Z) :
  Z.of_nat (length (hashlib.pad msg)) mod 64 = 0.
Proof.
  unfold hashlib.pad. rewrite !length_app, repeat_length, le_bytes_length.
  simpl length.
  set (len := Z.of_nat (length msg)).
  assert (Hr : 0 ≤ (55 - len) mod 64 < 64) by (apply Z.mod_pos_bound; lia).
  rewrite !Nat2Z.inj_add, Z2Nat.id by lia. fold len.
  pose proof (Z.div_mod (55 - len) 64 ltac:(lia)) as Hd.
  replace (len + (Z.of_nat 1 + ((55 - len) mod 64 + Z.of_nat 8)))
    with (64 * (1 - (55 - len) / 64)) by lia.
  rewrite Z.mul_comm. apply Z.mod_mul. lia.
Qed.

Lemma md5_digest_length data : length (hashlib.md5_digest data) = 16%nat.
Proof.
  unfold hashlib.md5_digest.
  destruct (fold_left _ _ _) as [[[a b] c] d].
  rewrite !length_app, !le_bytes_length. reflexivity.
Qed.

Lemma md5_digest_range data :
  Forall (λ b, 0 ≤ b < 256) (hashlib.md5_digest data).
Proof.
  unfold hashlib.md5_digest.
  destruct (fold_left _ _ _) as [[[a b] c] d].
  rewrite !Forall_app. repeat split; apply le_bytes_range.
Qed.

Lemma hex_digit_lower d :
  0 ≤ d < 16 → re.is_hex_lower (hashlib.hex_digit d) = true.
Proof.
  intros H.
  assert (Hall : forallb (λ n, re.is_hex_lower (hashlib.hex_digit (Z.of_nat n)))
                   (seq 0 16) = true) by (vm_compute; reflexivity).
  rewrite forallb_forall in Hall.
  specialize (Hall (Z.to_nat d)). rewrite Z2Nat.id in Hall by lia.
  apply Hall, in_seq. lia.
Qed.

Lemma hex_byte_lower b :
  0 ≤ b < 256 → Forall (λ c, re.is_hex_lower c = true) (hashlib.hex_byte b).
Proof.
  intros H. unfold hashlib.hex_byte.
  repeat constructor; apply hex_digit_lower.
  - split; [apply Z.div_pos; lia | apply Z.div_lt_upper_bound; lia].
  - apply Z.mod_pos_bound. lia.
Qed.

Lemma hex_bytes_length l :
  length (concat (map hashlib.hex_byte l)) = (2 * length l)%nat.
Proof. induction l as [|b l IH]; simpl; [done|]. rewrite IH. lia. Qed.

Lemma hex_bytes_lower l :
  Forall (λ b, 0 ≤ b < 256) l →
  Forall (λ c, re.is_hex_lower c = true) (concat (map hashlib.hex_byte l)).
Proof.
  induction 1 as [|b l Hb _ IH]; simpl; [constructor|].
  repeat constructor; try (apply hex_digit_lower); try done.
  - split; [apply Z.div_pos; lia | apply Z.div_lt_upper_bound; lia].
  - apply Z.mod_pos_bound. lia.
Qed.

(** Every derived name has the shape. *)
Lemma table_name_shape username : Msg_hex32 (table_name_of username).
Proof.
  exists (concat (map hashlib.hex_byte
                    (hashlib.md5_digest (str_encode_utf8 username)))).
  split; [reflexivity|]. split.
  - rewrite hex_bytes_length, md5_digest_length. reflexivity.
  - apply hex_bytes_lower, md5_digest_range.
Qed.

(** ** The check on names *)

Lemma Msg_prefix_chars (hex : list ascii) :
  list_ascii_of_string ("Msg_" +:+ string_of_list_ascii hex)
  = ("M" :: "s" :: "g" :: "_" :: hex)%char.
Proof. simpl. do 4 f_equal. apply list_ascii_of_string_of_list_ascii. Qed.

Lemma match_of_shape s : Msg_hex32 s → re.match_Msg_hex32 s = true.
Proof.
  intros (hex & -> & Hlen & Hhex).
  unfold re.match_Msg_hex32. rewrite Msg_prefix_chars.
  rewrite take_ge, drop_ge by lia. rewrite Hlen. simpl.
  rewrite andb_true_r. apply forallb_forall. intros c Hc.
  rewrite Forall_forall in Hhex. apply Hhex. by apply list_elem_of_In.
Qed.






(** ** Decoding of payloads *)

Ltac solve_sublist :=
  first [ assumption | apply sublist_nil_l
        | apply sublist_skip; solve_sublist
        | apply sublist_cons; solve_sublist ].

Ltac rewrite_tests :=
  repeat match goal with
         | H : ?c = _ |- context [?c] => rewrite H
         end.

(** With [errors='ignore'] the decoder never raises; what it keeps is a
    subsequence of the input, and is well formed: decoding it again with
    [errors='strict'] succeeds and changes nothing. *)
Lemma utf8_ignore_spec n : ∀ bs, (length bs ≤ n)%nat →
  ∃ kept, codecs.utf8_decode codecs.ignore bs = Val kept
          ∧ kept `sublist_of` bs
          ∧ codecs.utf8_decode codecs.strict kept = Val kept.
Proof.
  induction n as [|n IH]; intros bs Hlen.
  { destruct bs; [|simpl in Hlen; lia]. exists []. repeat split; constructor. }
  destruct bs as [|b0 r0]; [exists []; repeat split; constructor|].
  simpl in Hlen.
  cbn [codecs.utf8_decode].
  repeat match goal with
         | |- context [if ?c then _ else _] => destruct c eqn:?
         | |- context [match ?l with [] => _ | _ :: _ => _ end] =>
           is_var l; destruct l; simpl in Hlen
         end; cbn [codecs.on_error].
  all: try (exists []; repeat split; (reflexivity || solve_sublist)).
  all: match goal with
       | |- context [codecs.utf8_decode codecs.ignore ?r] =>
         destruct (IH r) as (k & E & Hsub & Hstrict); [simpl; lia|];
           rewrite E; cbn [codecs.emit app]
       end.
  all: eexists; split; [reflexivity|]; split; [solve_sublist|].
  all: try assumption.
  all: cbn [codecs.utf8_decode]; rewrite_tests;
    cbn [negb codecs.on_error codecs.emit app]; reflexivity.
Qed.

Lemma utf8_ignore_val bs :
  ∃ kept, codecs.utf8_decode codecs.ignore bs = Val kept
          ∧ kept `sublist_of` bs
          ∧ codecs.utf8_decode codecs.strict kept = Val kept.
Proof. by apply (utf8_ignore_spec (length bs)). Qed.

Lemma decode_ignore_best_effort bs :
  codecs.decode codecs.ignore bs = Val (best_effort bs).
Proof.
  unfold codecs.decode, best_effort.
  destruct (utf8_ignore_val bs) as (kept & -> & _). reflexivity.
Qed.

(** A well-formed input is kept whole. *)
Lemma utf8_strict_ignore bs kept :
  codecs.utf8_decode codecs.strict bs = Val kept →
  kept = bs ∧ codecs.utf8_decode codecs.ignore bs = Val bs.
Proof.
  remember (length bs) as n eqn:Hn.
  assert (Hlen : (length bs ≤ n)%nat) by lia. clear Hn.
  revert bs kept Hlen. induction n as [|n IH]; intros bs kept Hlen.
  { destruct bs; [|simpl in Hlen; lia]. simpl. by intros [= <-]. }
  destruct bs as [|b0 r0]; [simpl; by intros [= <-]|].
  simpl in Hlen. cbn [codecs.utf8_decode].
  repeat match goal with
         | |- context [if ?c then _ else _] => destruct c eqn:?
         | |- context [match ?l with [] => _ | _ :: _ => _ end] =>
           is_var l; destruct l; simpl in Hlen
         end; cbn [codecs.on_error]; try discriminate.
  all: match goal with
       | |- context [codecs.utf8_decode codecs.strict ?r] =>
         destruct (codecs.utf8_decode codecs.strict r) as [k|] eqn:E;
           [|discriminate];
           destruct (IH r k) as [-> ->]; [simpl; lia|done|]
       end.
  all: cbn [codecs.emit app]; by intros [= <-].
Qed.

(** The fallback branch yields the best-effort text. *)
Lemma decode_fallback {S} (raw : list byte) (s : S) :
  match raw with
  | [] => mret ""
  | _ :: _ => lift (codecs.decode codecs.ignore raw)
  end s = (Val (best_effort raw), s).
Proof.
  destruct raw as [|b raw]; [reflexivity|].
  unfold lift. by rewrite decode_ignore_best_effort.
Qed.

Lemma decompress_content_eq {S} env raw (s : S) :
  decompress_content env raw s = (Val (content_text env (PyBytes raw)), s).
Proof.
  unfold decompress_content, try_except, import_zstandard, content_text.
  unfold mbind, M_bind, bind, mret, M_ret, ret, raise, lift.
  destruct (zstandard env) as [decompress|]; simpl.
  - destruct (decompress raw) as [data|e]; simpl.
    + destruct (codecs.decode codecs.strict data) as [t|e]; simpl; [done|].
      apply decode_fallback.
    + apply decode_fallback.
  - apply decode_fallback.
Qed.

Lemma decode_content_eq {S} env raw (s : S) :
  decode_content env raw s = (Val (content_text env raw), s).
Proof.
  unfold decode_content. destruct raw; try reflexivity.
  unfold mbind, M_bind, bind. by rewrite decompress_content_eq.
Qed.

Lemma message_of_row_eq {S} env username row (s : S) :
  message_of_row env username row s = (Val (row_message env username row), s).
Proof.
  unfold message_of_row, mbind, M_bind, bind. rewrite decode_content_eq.
  unfold mret, M_ret, ret, row_message. do 3 f_equal.
  - destruct (MsgRow.server_id row) as [n|]; simpl; [|done].
    destruct (Z.eqb_spec n 0); congruence.
  - unfold str_or. destruct (MsgRow.sender_username row) as [u|]; simpl; [|done].
    destruct (String.eqb_spec u ""); congruence.
Qed.

(** C3.  The content-decode step of a row returns a string for every
    payload, leaves the state alone and never raises.  The string is the
    payload itself when it is text; for bytes it is the decompressed and
    decoded text when the [zstandard] module is there and both steps
    succeed, and otherwise the best-effort decoding of the raw bytes,
    which keeps a well-formed subsequence of them (nothing of an empty
    payload, and all of a payload that is plain UTF-8); it is the empty
    string for any other value. *)
Theorem decode_content_total {S} (env : Env) (raw : pyval) (s : S) :
  decode_content env raw s = (Val (content_text env raw), s)
  ∧ (∀ b, zstandard env = None →
          content_text env (PyBytes b) = best_effort b)
  ∧ (∀ b decompress e, zstandard env = Some decompress →
          decompress b = Exn e →
          content_text env (PyBytes b) = best_effort b)
  ∧ (∀ b decompress data e, zstandard env = Some decompress →
          decompress b = Val data →
          codecs.decode codecs.strict data = Exn e →
          content_text env (PyBytes b) = best_effort b)
  ∧ (∀ b, ∃ kept, best_effort b = string_of_list_byte kept
                  ∧ kept `sublist_of` b
                  ∧ codecs.utf8_decode codecs.strict kept = Val kept)
  ∧ (∀ b, codecs.utf8_decode codecs.strict b = Val b →
          best_effort b = string_of_list_byte b)
  ∧ best_effort [] = ""
  ∧ content_text env PyNone = ""
  ∧ (∀ n, content_text env (PyInt n) = "")
  ∧ (∀ x, content_text env (PyFloat x) = "")
  ∧ (∀ t, content_text env (PyStr t) = t).
Proof.
  split; [apply decode_content_eq|].
  split; [by intros b H; simpl; rewrite H|].
  split; [by intros b z e H1 H2; simpl; rewrite H1, H2|].
  split; [by intros b z d e H1 H2 H3; simpl; rewrite H1, H2, H3|].
  split; [|split; [|done]].
  - intros b. destruct (utf8_ignore_val b) as (kept & E & Hsub & Hstrict).
    exists kept. unfold best_effort. by rewrite E.
  - intros b Hb. destruct (utf8_strict_ignore b b Hb) as [_ E].
    unfold best_effort. by rewrite E.
Qed.

(** ** Reading messages *)

Ltac wp_step :=
  lazymatch goal with
  | |- wp (mbind _ _) _ _ => apply wp_bind
  | |- wp (try_except _ _ _) _ _ => apply wp_try
  | |- wp (outer _) _ _ => apply wp_outer
  | |- wp (with_local _ _) _ _ => apply wp_with_local
  | |- wp (local_modify _) _ _ => apply wp_local_modify
  | |- wp (mret _) _ _ => apply wp_ret
  | |- wp (raise _) _ _ => apply wp_raise
  | |- wp (lift _) _ _ => apply wp_lift
  | |- wp get_state _ _ => apply wp_get
  | |- wp (modify _) _ _ => apply wp_modify
  | |- wp (execute _ _ _) _ _ => unfold execute
  | |- wp (eprint _) _ _ => unfold eprint
  | |- wp (print_json _) _ _ => unfold print_json
  | |- wp (fetchall _) _ _ => unfold fetchall
  | |- wp (fetchone _) _ _ => unfold fetchone
  end; simpl.

Ltac wp_steps := repeat wp_step.

Lemma wp_message_of_row {S} env username row (Q : Res Message → S → Prop) s :
  Q (Val (row_message env username row)) s →
  wp (message_of_row env username row) Q s.
Proof. unfold wp. by rewrite message_of_row_eq. Qed.

Lemma wp_row_loop env username rows Q (p : Proc) all :
  Q (Val tt) (p, all ++ map (row_message env username) rows) →
  wp (for_each rows (λ row,
        msg ← message_of_row env username row;
        local_modify (λ all_messages, all_messages ++ [msg]))) Q (p, all).
Proof.
  revert all. induction rows as [|row rows IH]; intros all HQ; simpl.
  - rewrite app_nil_r in HQ. by apply wp_ret.
  - apply (wp_bind (_ ≫= _)). apply wp_bind. apply wp_message_of_row.
    apply wp_local_modify. apply IH. by rewrite <- app_assoc.
Qed.

Lemma wp_read_shard env table username limit offset start_time db Q p all :
  (∀ p' all',
     self p' = self p → stdout p' = stdout p →
     stderr p' = stderr p ++ shard_warning env (self p) table
                               limit offset start_time db →
     all' = all ++ shard_messages env (self p) table username
                     limit offset start_time db →
     Q (Val tt) (p', all')) →
  wp (read_shard env table username limit offset start_time db) Q (p, all).
Proof.
  intros HQ. unfold read_shard, shard_messages, shard_warning, shard_rows in *.
  wp_steps.
  destruct (table_exists db table) as [[[|x xs]|e]|e]; simpl in *.
  - wp_steps. apply HQ; by rewrite ?app_nil_r.
  - wp_steps.
    destruct (messages_joined db table _ _ _ _) as [c|e]; simpl in *.
    + wp_steps. destruct c as [rows|e]; simpl in *.
      * apply wp_row_loop. apply HQ; by rewrite ?app_nil_r.
      * wp_steps. apply HQ; by rewrite ?app_nil_r.
    + destruct (is_OperationalError e); simpl in *.
      * wp_steps.
        destruct (messages_plain db table _ _ _) as [c|e']; simpl in *.
        -- wp_steps. destruct c as [rows|e'']; simpl in *.
           ++ apply wp_row_loop. apply HQ; by rewrite ?app_nil_r.
           ++ wp_steps. apply HQ; by rewrite ?app_nil_r.
        -- wp_steps. apply HQ; by rewrite ?app_nil_r.
      * wp_steps. apply HQ; by rewrite ?app_nil_r.
  - wp_steps. apply HQ; by rewrite ?app_nil_r.
  - wp_steps. apply HQ; by rewrite ?app_nil_r.
Qed.

Lemma wp_shard_loop env table username limit offset start_time dbs Q p all :
  (∀ p' all',
     self p' = self p → stdout p' = stdout p →
     stderr p'
     = stderr p ++ flat_map (shard_warning env (self p) table
                               limit offset start_time) dbs →
     all' = all ++ flat_map (shard_messages env (self p) table username
                               limit offset start_time) dbs →
     Q (Val tt) (p', all')) →
  wp (for_each dbs (read_shard env table username limit offset start_time))
     Q (p, all).
Proof.
  revert p all Q. induction dbs as [|db dbs IH]; intros p all Q HQ; simpl.
  - apply wp_ret. apply HQ; by rewrite ?app_nil_r.
  - apply wp_bind. apply wp_read_shard. intros p1 all1 Hself Hout Herr ->.
    apply IH. intros p2 all2 Hself2 Hout2 Herr2 ->.
    rewrite Hself in *. apply HQ; try congruence.
    + by rewrite Herr2, Herr, <- app_assoc.
    + by rewrite <- app_assoc.
Qed.

(** [get_messages] always returns: the messages of the shards that could
    be read, sorted, with their number; the reader is left as it was and
    one warning is printed for each shard that raised. *)
Lemma get_messages_from_valid env table username limit offset start_time p :
  re.match_Msg_hex32 table = true →
  ∃ p',
    get_messages_from env table username limit offset start_time p
    = (Val (list_sort create_time
              (flat_map (shard_messages env (self p) table username
                           limit offset start_time) (message_dbs (self p))),
            length (list_sort create_time
              (flat_map (shard_messages env (self p) table username
                           limit offset start_time) (message_dbs (self p))))),
       p')
    ∧ self p' = self p
    ∧ stdout p' = stdout p
    ∧ stderr p'
      = stderr p ++ flat_map (shard_warning env (self p) table
                                limit offset start_time)
                      (message_dbs (self p)).
Proof.
  intros Hm.
  apply (wp_val_elim _ _
           (λ p', self p' = self p ∧ stdout p' = stdout p
                  ∧ stderr p'
                    = stderr p ++ flat_map (shard_warning env (self p) table
                                              limit offset start_time)
                                    (message_dbs (self p)))).
  unfold get_messages_from. rewrite Hm. simpl.
  apply wp_bind, wp_with_local, wp_bind, wp_outer, wp_get. simpl.
  apply wp_shard_loop. intros p' all' Hself Hout Herr ->. simpl.
  apply wp_ret. done.
Qed.


Lemma get_messages_spec env username limit offset start_time p :
  ∃ p',
    get_messages env username limit offset start_time p
    = (Val (list_sort create_time
              (flat_map (shard_messages env (self p) (table_name_of username)
                           username limit offset start_time)
                 (message_dbs (self p))),
            length (list_sort create_time
              (flat_map (shard_messages env (self p) (table_name_of username)
                           username limit offset start_time)
                 (message_dbs (self p))))),
       p')
    ∧ self p' = self p
    ∧ stdout p' = stdout p
    ∧ stderr p'
      = stderr p ++ flat_map (shard_warning env (self p)
                                (table_name_of username)
                                limit offset start_time)
                      (message_dbs (self p)).
Proof.
  unfold get_messages, mbind, M_bind, bind, get_state.
  destruct (message_dbs (self p)) as [|db dbs] eqn:Hdbs.
  - exists p. simpl. by rewrite app_nil_r.
  - destruct (get_messages_from_valid env (table_name_of username) username
                limit offset start_time p) as (p' & E & H).
    { apply match_of_shape, table_name_shape. }
    rewrite Hdbs in E, H. by exists p'.
Qed.

(** ** Shards that are SQLite files *)

Lemma filter_names_lookup {V} table (l : list (string * V)) :
  match Sqlite.lookup table l with
  | Some _ => ∃ x xs, List.filter (String.eqb table) (map fst l) = x :: xs
  | None => List.filter (String.eqb table) (map fst l) = []
  end.
Proof.
  unfold Sqlite.lookup. induction l as [|[k v] l IH]; simpl; [done|].
  rewrite (String.eqb_sym table k).
  destruct (String.eqb k table); simpl; [eauto|]. exact IH.
Qed.

Lemma Msg_name_not_reserved table name :
  Msg_hex32 table → String.prefix "Msg_" name = false →
  String.eqb table name = false.
Proof.
  intros (hex & -> & _) Hp. apply String.eqb_neq. intros <-.
  simpl in Hp. change ("" +:+ ?x) with x in Hp.
  destruct (string_of_list_ascii hex); discriminate.
Qed.

Lemma sqlite_table_probe table f :
  Msg_hex32 table →
  List.filter (String.eqb table) (Sqlite.table_names f)
  = List.filter (String.eqb table) (map fst (Sqlite.msg_tables f)).
Proof.
  intros Hm. unfold Sqlite.table_names.
  rewrite !List.filter_app.
  assert (Hr : ∀ name, String.prefix "Msg_" name = false →
                List.filter (String.eqb table) [name] = []).
  { intros name Hp. simpl. by rewrite (Msg_name_not_reserved _ _ Hm Hp). }
  destruct (Sqlite.Name2Id f), (Sqlite.contact f), (Sqlite.chat_room f);
    rewrite ?Hr by reflexivity; simpl; by rewrite ?app_nil_r.
Qed.

Lemma skip_ident_all (l : list ascii) :
  forallb Sqlite.is_ident_char l = true → Sqlite.skip_ident l = (l, []).
Proof.
  induction l as [|c l IH]; simpl; [done|].
  intros [Hc Hl]%andb_true_iff. rewrite Hc, (IH Hl). reflexivity.
Qed.

Lemma hex_lower_ident c :
  re.is_hex_lower c = true → Sqlite.is_ident_char c = true.
Proof.
  unfold re.is_hex_lower, re.in_range, Sqlite.is_ident_char.
  change (nat_of_ascii "a") with 97%nat. change (nat_of_ascii "f") with 102%nat.
  change (nat_of_ascii "0") with 48%nat. change (nat_of_ascii "9") with 57%nat.
  intros H.
  repeat match goal with
         | |- context [(?a <=? ?b)%nat] => destruct (Nat.leb_spec a b)
         | |- context [(?a =? ?b)%nat] => destruct (Nat.eqb_spec a b)
         | H : context [(?a <=? ?b)%nat] |- _ => destruct (Nat.leb_spec a b)
         end; simpl in *; try done; lia.
Qed.

(** A name of the shape stands for itself in the text of a statement. *)
Lemma table_token_shape table :
  Msg_hex32 table → Sqlite.table_token table = Some table.
Proof.
  intros (hex & -> & _ & Hhex). unfold Sqlite.table_token.
  rewrite Msg_prefix_chars. rewrite skip_ident_all.
  - simpl. do 5 f_equal.
  - simpl. apply forallb_forall. intros c Hc. apply hex_lower_ident.
    rewrite Forall_forall in Hhex. apply Hhex. by apply list_elem_of_In.
Qed.

Lemma sqlite_shard_rows env rd table limit offset start_time f :
  Msg_hex32 table →
  match shard_rows env rd table limit offset start_time (Sqlite.connect f) with
  | Val rows =>
    rows = file_rows (_get_my_wxid env rd) table (since_of start_time)
             limit offset f
  | Exn _ =>
    file_rows (_get_my_wxid env rd) table (since_of start_time)
      limit offset f = []
  end.
Proof.
  intros Hm. unfold shard_rows, file_rows. simpl. unfold Sqlite.answer.
  destruct (Sqlite.corrupt f); simpl; [done|].
  rewrite (sqlite_table_probe _ _ Hm), (table_token_shape _ Hm).
  pose proof (filter_names_lookup table (Sqlite.msg_tables f)) as Hl.
  destruct (Sqlite.lookup table (Sqlite.msg_tables f)) as [rows|].
  - destruct Hl as (x & xs & ->).
    destruct (Sqlite.Name2Id f) as [names|]; simpl; done.
  - by rewrite Hl.
Qed.

Lemma sqlite_shard_messages env rd table username limit offset start_time f :
  Msg_hex32 table →
  shard_messages env rd table username limit offset start_time
    (Sqlite.connect f)
  = map (row_message env username)
      (file_rows (_get_my_wxid env rd) table (since_of start_time)
         limit offset f).
Proof.
  intros Hm. unfold shard_messages.
  pose proof (sqlite_shard_rows env rd table limit offset start_time f Hm) as H.
  destruct (shard_rows _ _ _ _ _ _ _); [by subst|by rewrite H].
Qed.

Lemma window_length {R} limit offset (l : list R) :
  0 ≤ limit → (length (Sqlite.window limit offset l) ≤ Z.to_nat limit)%nat.
Proof.
  intros H. unfold Sqlite.window.
  destruct (Z.ltb_spec limit 0); [lia|]. rewrite length_take. lia.
Qed.

Lemma file_rows_length my_wxid table since limit offset f :
  0 ≤ limit →
  (length (file_rows my_wxid table since limit offset f)
   ≤ (if holds_table table f then Z.to_nat limit else 0))%nat.
Proof.
  intros H. unfold file_rows, holds_table.
  destruct (Sqlite.corrupt f); simpl; [lia|].
  destruct (Sqlite.lookup _ _) as [rows|]; simpl; [|lia].
  unfold Sqlite.select_messages. rewrite length_map. by apply window_length.
Qed.

Lemma flat_map_file_rows_length env username my_wxid table since limit offset
    files :
  0 ≤ limit →
  (length (flat_map (λ f, map (row_message env username)
                            (file_rows my_wxid table since limit offset f))
             files)
   ≤ length (List.filter (holds_table table) files) * Z.to_nat limit)%nat.
Proof.
  intros H. induction files as [|f files IH]; simpl; [lia|].
  rewrite length_app, length_map.
  pose proof (file_rows_length my_wxid table since limit offset f H) as Hf.
  destruct (holds_table table f); simpl; lia.
Qed.

(** ** The claims on [get_messages] *)




(** C10.  The window is part of each shard's statement and nothing
    truncates the merged list: over SQLite shards the result is the
    sorted concatenation of the per-shard windows, its total is its
    length, it holds at most [k * limit] messages when [k] shards hold the
    table, and that bound is reached (two shards and a limit of 1 give two
    messages). *)
Theorem window_is_per_shard :
  (∀ (env : Env) (username : string) (limit offset start_time : Z)
     (p : Proc) (files : list Sqlite.File),
     message_dbs (self p) = map Sqlite.connect files →
     ∃ msgs p',
       get_messages env username limit offset start_time p
       = (Val (msgs, length msgs), p')
       ∧ msgs = list_sort create_time
                  (flat_map
                     (λ f, map (row_message env username)
                             (file_rows (_get_my_wxid env (self p))
                                (table_name_of username)
                                (since_of start_time) limit offset f))
                     files)
       ∧ (0 ≤ limit →
          (length msgs
           ≤ length (List.filter (holds_table (table_name_of username)) files)
             * Z.to_nat limit)%nat))
  ∧ (∃ msgs p',
       get_messages (Disk.env Sample.two_shards None) "alice" 1 0 0
         (Sample.opened Sample.two_shards)
       = (Val (msgs, 2%nat), p')
       ∧ map create_time msgs = [30; 40]
       ∧ length (List.filter (holds_table (table_name_of "alice"))
                   (drop 1 (Disk.files Sample.two_shards))) = 2%nat).
Proof.
  split.
  - intros env username limit offset start_time p files Hdbs.
    destruct (get_messages_spec env username limit offset start_time p)
      as (p' & E & _).
    assert (Hflat :
      flat_map (shard_messages env (self p) (table_name_of username)
                  username limit offset start_time) (message_dbs (self p))
      = flat_map (λ f, map (row_message env username)
                         (file_rows (_get_my_wxid env (self p))
                            (table_name_of username)
                            (since_of start_time) limit offset f)) files).
    { rewrite Hdbs. clear. induction files as [|f files IH]; simpl; [done|].
      rewrite IH. f_equal.
      apply sqlite_shard_messages, table_name_shape. }
    rewrite Hflat in E. eexists _, p'. split; [exact E|].
    split; [reflexivity|]. intros Hlimit.
    rewrite list_sort_length. by apply flat_map_file_rows_length.
  - eexists _, _. split; [vm_compute; reflexivity|].
    split; vm_compute; reflexivity.
Qed.

Lemma window_is_per_shard_witness :
  ∃ msgs p',
    get_messages (Disk.env Sample.two_shards None) "alice" 1 0 0
      (Sample.opened Sample.two_shards)
    = (Val (msgs, length msgs), p')
    ∧ (length msgs ≤ 2 * 1)%nat.
Proof.
  destruct (proj1 window_is_per_shard (Disk.env Sample.two_shards None)
              "alice" 1 0 0 (Sample.opened Sample.two_shards)
              (drop 1 (Disk.files Sample.two_shards)) eq_refl)
    as (msgs & p' & E & _ & Hbound).
  exists msgs, p'. split; [exact E|].
  apply Hbound. lia.
Defined.

(** ** The claims on table names and payloads *)




Lemma decode_content_total_witness :
  content_text (Disk.env Sample.alice_disk None)
    (PyBytes [x41; xff; x42]) = "AB"
  ∧ content_text (Disk.env Sample.alice_disk (Some Sample.rejecting))
      (PyBytes [x41; xff; x42]) = "AB"
  ∧ content_text (Disk.env Sample.alice_disk (Some Sample.passing))
      (PyBytes [x41; xff; x42]) = "AB"
  ∧ best_effort [x68; x69] = "hi".
Proof.
  destruct (decode_content_total (S := unit)
              (Disk.env Sample.alice_disk None) PyNone tt)
    as (_ & Hmissing & _ & _ & _ & Hplain & _).
  destruct (decode_content_total (S := unit)
              (Disk.env Sample.alice_disk (Some Sample.rejecting)) PyNone tt)
    as (_ & _ & Hrejected & _).
  destruct (decode_content_total (S := unit)
              (Disk.env Sample.alice_disk (Some Sample.passing)) PyNone tt)
    as (_ & _ & _ & Hundecodable & _).
  split; [|split; [|split]].
  - rewrite (Hmissing [x41; xff; x42] eq_refl). vm_compute. reflexivity.
  - rewrite (Hrejected [x41; xff; x42] Sample.rejecting
               (ZstdError "Unknown frame descriptor") eq_refl eq_refl).
    vm_compute. reflexivity.
  - rewrite (Hundecodable [x41; xff; x42] Sample.passing [x41; xff; x42]
               (UnicodeDecodeError "'utf-8' codec can't decode bytes")
               eq_refl eq_refl eq_refl).
    vm_compute. reflexivity.
  - rewrite (Hplain [x68; x69] eq_refl). vm_compute. reflexivity.
Defined.

(** ** Opening the stores *)

Lemma wp_open_db env path store (Q : Res unit → Proc → Prop) s :
  match sqlite3_connect env path with
  | Val db => Q (Val tt) (with_self (store db) s)
  | Exn e => Q (Exn e) s
  end →
  wp (open_db env path store) Q s.
Proof.
  intros H. unfold open_db. wp_steps.
  destruct (sqlite3_connect env path); wp_steps; exact H.
Qed.

Lemma wp_open_contact_store env dir Q s :
  match find (path_exists env) (contact_candidates dir) with
  | None => Q (Val tt) s
  | Some path =>
    match sqlite3_connect env path with
    | Val db => Q (Val tt) (with_self (set_contact_db db) s)
    | Exn e => Q (Exn e) s
    end
  end →
  wp (open_contact_store env dir) Q s.
Proof.
  unfold open_contact_store, contact_candidates. cbn [find].
  repeat match goal with
         | |- context [if path_exists env ?x then _ else _] =>
           destruct (path_exists env x)
         end; intros H; (by apply wp_open_db) || by apply wp_ret.
Qed.

Lemma wp_open_session_store env dir Q s :
  match find (path_exists env) (session_candidates dir) with
  | None => Q (Val tt) s
  | Some path =>
    match sqlite3_connect env path with
    | Val db => Q (Val tt) (with_self (set_session_db db) s)
    | Exn e => Q (Exn e) s
    end
  end →
  wp (open_session_store env dir) Q s.
Proof.
  unfold open_session_store, session_candidates. cbn [find].
  repeat match goal with
         | |- context [if path_exists env ?x then _ else _] =>
           destruct (path_exists env x)
         end; intros H; (by apply wp_open_db) || by apply wp_ret.
Qed.

Lemma open_numbered_unfold env dir i count :
  open_numbered env dir i (S count)
  = (if path_exists env
          (path_join dir ["message_" +:+ str_of_nat i +:+ ".db"])
     then open_db env (path_join dir ["message_" +:+ str_of_nat i +:+ ".db"])
            append_message_db;;
          open_numbered env dir (S i) count
     else mret tt).
Proof. reflexivity. Qed.

Lemma wp_open_numbered_any env dir i count Q rd err out log :
  (∀ r l log', Q r {| self := set_message_dbs l rd; stderr := err;
                 stdout := out; sql_log := log' |}) →
  wp (open_numbered env dir i count) Q
     {| self := rd; stderr := err; stdout := out; sql_log := log |}.
Proof.
  intros HQ. destruct rd as [d c s m cm ini].
  unfold set_message_dbs in HQ. simpl in HQ.
  revert i m log. induction count as [|count IH]; intros i m log.
  - apply wp_ret. apply HQ.
  - rewrite open_numbered_unfold.
    destruct (path_exists env _); [|apply wp_ret; apply HQ].
    apply wp_bind, wp_open_db.
    destruct (sqlite3_connect env _) as [db|e]; [|apply HQ].
    apply IH.
Qed.

Lemma wp_open_listed_any env folder names Q rd err out log :
  (∀ r l log', Q r {| self := set_message_dbs l rd; stderr := err;
                      stdout := out; sql_log := log' |}) →
  wp (for_each names (λ filename,
        if startswith filename "MSG" && endswith filename ".db" then
          open_db env (path_join folder [filename]) append_message_db
        else mret tt)) Q
     {| self := rd; stderr := err; stdout := out; sql_log := log |}.
Proof.
  intros HQ. destruct rd as [d c s m cm ini].
  unfold set_message_dbs in HQ. simpl in HQ.
  revert m log. induction names as [|name names IH]; intros m log; simpl.
  - apply wp_ret. apply HQ.
  - apply wp_bind. destruct (_ && _).
    + apply wp_open_db.
      destruct (sqlite3_connect env _) as [db|e]; [apply IH|apply HQ].
    + apply wp_ret. apply IH.
Qed.

Lemma wp_open_message_shards_any env dir Q rd err out log :
  (∀ r l log', Q r {| self := set_message_dbs l rd; stderr := err;
                      stdout := out; sql_log := log' |}) →
  wp (open_message_shards env dir) Q
     {| self := rd; stderr := err; stdout := out; sql_log := log |}.
Proof.
  intros HQ. unfold open_message_shards. apply wp_bind.
  destruct (path_exists env (path_join dir ["message_0.db"])).
  - apply wp_bind. apply wp_open_numbered_any. intros [[]|e] l log'.
    + apply wp_ret. simpl. apply wp_ret. apply HQ.
    + apply HQ.
  - apply wp_ret. simpl.
    destruct (path_exists env (path_join dir ["message"])).
    + by apply wp_open_numbered_any.
    + destruct (path_exists env (path_join dir ["Msg"])).
      * apply wp_bind, wp_lift.
        destruct (listdir env _) as [names|e].
        -- by apply wp_open_listed_any.
        -- destruct rd. apply HQ.
      * apply wp_ret. destruct rd. apply HQ.
Qed.

Lemma numbered_paths_unfold env dir i count :
  numbered_paths env dir i (S count)
  = (if path_exists env
          (path_join dir ["message_" +:+ str_of_nat i +:+ ".db"])
     then path_join dir ["message_" +:+ str_of_nat i +:+ ".db"]
          :: numbered_paths env dir (S i) count
     else []).
Proof. reflexivity. Qed.


Lemma init_database_spec env dir :
  ∃ b p',
    init_database env (start dir) = (Val b, p')
    ∧ contacts_map (self p') = ∅
    ∧ stdout p' = []
    ∧ db_dir (self p') = dir
    ∧ _initialized (self p') = b
    ∧ contact_db (self p') = contact_conn env dir
    ∧ (b = true → is_Some (contact_conn env dir)).
Proof.
  cut (wp (init_database env)
         (λ r p', ∃ b, r = Val b
            ∧ contacts_map (self p') = ∅ ∧ stdout p' = []
            ∧ db_dir (self p') = dir ∧ _initialized (self p') = b
            ∧ contact_db (self p') = contact_conn env dir
            ∧ (b = true → is_Some (contact_conn env dir))) (start dir)).
  { unfold wp. destruct (init_database env (start dir)) as [r p']; simpl.
    intros (b & -> & H). by exists b, p'. }
  unfold init_database. apply wp_try, wp_bind, wp_get. simpl.
  apply wp_bind, wp_open_contact_store.
  assert (Hc : contact_conn env dir
               = match find (path_exists env) (contact_candidates dir) with
                 | Some path =>
                   match sqlite3_connect env path with
                   | Val db => Some db
                   | Exn _ => None
                   end
                 | None => None
                 end) by reflexivity.
  destruct (find (path_exists env) (contact_candidates dir)) as [path|];
    [destruct (sqlite3_connect env path) as [db|e]|];
    [| simpl; wp_steps; exists false; rewrite Hc; repeat split; done |].
  all: apply wp_bind, wp_open_session_store;
    destruct (find (path_exists env) (session_candidates dir)) as [q|];
    [destruct (sqlite3_connect env q) as [sdb|e']|];
    [| simpl; wp_steps; eexists; rewrite Hc; repeat split; done |].
  all: apply wp_bind, wp_open_message_shards_any; intros [[]|e''] l log';
    simpl; wp_steps; eexists; rewrite Hc; repeat split; eauto; done.
Qed.



Lemma cmd_status_eq env dir b p' :
  init_database env (start dir) = (Val b, p') →
  run dir (cmd_status env)
  = (Val tt, {| self := self p'; stderr := stderr p';
                stdout := stdout p' ++ [get_status (self p')];
                sql_log := sql_log p' |}).
Proof.
  intros E. unfold run, cmd_status, mbind, M_bind, bind. rewrite E.
  reflexivity.
Qed.

(** [main] on a command that takes the storage root runs the command on
    a fresh reader for that root and exits with status 0. *)
Lemma main_status env prog dir rest p' :
  run dir (cmd_status env) = (Val tt, p') →
  main env (prog :: "status" :: dir :: rest) boot = (Val 0, p').
Proof.
  unfold run, main. simpl.
  unfold WeChatDatabaseV4, mbind, M_bind, bind, modify. simpl.
  change (with_self (λ _, new_reader dir) boot) with (start dir).
  by intros ->.
Qed.

Lemma main_contacts env prog dir rest p' :
  run dir (cmd_contacts env) = (Val tt, p') →
  main env (prog :: "contacts" :: dir :: rest) boot = (Val 0, p').
Proof.
  unfold run, main. simpl.
  unfold WeChatDatabaseV4, mbind, M_bind, bind, modify. simpl.
  change (with_self (λ _, new_reader dir) boot) with (start dir).
  by intros ->.
Qed.

(** ** The claims on initialization and status *)

(** C6, as the code has it.  A reader that was never initialized reports
    [initialized] false and zero for both counts.  The [status] command
    prints the status right after [init_database]; when that did not
    succeed it reports [initialized] false and a contact count of zero,
    and as shard count the number of shard databases that were opened. *)
Theorem status_before_successful_init (env : Env) (prog dir : string)
    (rest : list string) :
  get_status (new_reader dir)
  = JObj [ ("initialized", JBool false); ("hasContactDb", JBool false);
           ("hasSessionDb", JBool false); ("messageDbCount", JInt 0);
           ("contactCount", JInt 0); ("dbVersion", JInt 4) ]
  ∧ ∃ b p' p'' out,
      init_database env (start dir) = (Val b, p')
      ∧ main env (prog :: "status" :: dir :: rest) boot = (Val 0, p'')
      ∧ stdout p'' = [out]
      ∧ (b = false → field "initialized" out = Some (JBool false))
      ∧ field "contactCount" out = Some (JInt 0)
      ∧ field "messageDbCount" out
        = Some (JInt (Z.of_nat (length (message_dbs (self p'))))).
Proof.
  split; [reflexivity|].
  destruct (init_database_spec env dir)
    as (b & p' & E & Hmap & Hout & _ & Hini & _).
  exists b, p'. eexists _, _. split; [exact E|].
  split; [exact (main_status env prog dir rest _ (cmd_status_eq env dir b p' E))|].
  split; [simpl; by rewrite Hout|].
  split; [|split].
  - intros ->. simpl. by rewrite Hini.
  - simpl. rewrite Hmap. reflexivity.
  - reflexivity.
Qed.

Lemma status_before_successful_init_witness :
  ∃ out p'',
    main (Disk.env Sample.shards_only None)
      ["wechat_reader.py"; "status"; "/r"] boot = (Val 0, p'')
    ∧ stdout p'' = [out]
    ∧ field "initialized" out = Some (JBool false).
Proof.
  destruct (status_before_successful_init
              (Disk.env Sample.shards_only None) "wechat_reader.py" "/r" [])
    as (_ & b & p' & p'' & out & E & Hrun & Hout & Hini & _).
  exists out, p''. split; [exact Hrun|]. split; [exact Hout|].
  apply Hini.
  assert (Hb : (init_database (Disk.env Sample.shards_only None)
                  (start "/r")).1 = Val false) by (vm_compute; reflexivity).
  rewrite E in Hb. simpl in Hb. by injection Hb.
Defined.

(** C6, as stated, fails: on a root that holds [message_0.db] and no
    contact store, initialization does not succeed and the status reports
    [initialized] false with a shard count of 1. *)
Lemma status_counts_shards_without_contact_store :
  ∃ p' p'' out,
    init_database (Disk.env Sample.shards_only None) (start "/r")
    = (Val false, p')
    ∧ main (Disk.env Sample.shards_only None)
        ["wechat_reader.py"; "status"; "/r"] boot = (Val 0, p'')
    ∧ stdout p'' = [out]
    ∧ field "initialized" out = Some (JBool false)
    ∧ field "messageDbCount" out = Some (JInt 1)
    ∧ field "messageDbCount" out ≠ Some (JInt 0).
Proof.
  eexists _, _, _. split; [vm_compute; reflexivity|].
  split; [vm_compute; reflexivity|].
  split; [reflexivity|]. split; [reflexivity|]. split; [reflexivity|].
  discriminate.
Qed.



(** ** Contacts and groups *)

Lemma wp_append_and_register c (Q : Res unit → Proc * list Contact → Prop) p l :
  Q (Val tt) (with_self (register_contact c) p, l ++ [c]) →
  wp (append_and_register c) Q (p, l).
Proof. intros H. unfold append_and_register. wp_steps. exact H. Qed.

(** One schema probe: the statement, the fetch and the loop over the
    rows.  The statement is recorded; an error of the statement leaves
    the block at once; the loop keeps [I] and raises no
    [OperationalError]. *)
Lemma wp_schema_block {R} db q (answer : Res (Cursor R))
    (body : R → M (Proc * list Contact) unit)
    (I : Proc * list Contact → Prop) Q p l :
  I ({| self := self p; stderr := stderr p; stdout := stdout p;
        sql_log := sql_log p ++ [(conn_repr db, q)] |}, l) →
  (∀ row st, I st →
     wp (body row)
        (λ r st', I st' ∧ match r with
                          | Val _ => True
                          | Exn e => is_OperationalError e = false
                          end) st) →
  (∀ e, query_error answer = Some e →
        Q (Exn e) ({| self := self p; stderr := stderr p; stdout := stdout p;
                      sql_log := sql_log p ++ [(conn_repr db, q)] |}, l)) →
  (∀ r st', query_error answer = None → I st' →
            match r with
            | Val _ => True
            | Exn e => is_OperationalError e = false
            end →
            Q r st') →
  wp (outer (execute db q answer)
      ≫= λ cursor, fetchall cursor ≫= λ rows, for_each rows body) Q (p, l).
Proof.
  intros HI Hbody Herr Hrows. wp_steps.
  destruct answer as [[rows|e]|e]; simpl.
  - wp_steps. eapply wp_mono;
      [|apply (wp_for_each_inv rows body I
                 (λ e, is_OperationalError e = false)); [exact HI|exact Hbody]].
    intros r st' [? ?]. by apply Hrows.
  - wp_steps. by apply Herr.
  - by apply Herr.
Qed.

Lemma wp_contact_of_v4 row (p0 : Proc) st :
  stderr st.1 = stderr p0 ∧ stdout st.1 = stdout p0
  ∧ sql_log st.1 = sql_log p0
  ∧ Forall (λ c, is_chatroom c = endswith (wxid c) "@chatroom") st.2 →
  wp (contact_of_v4 row)
     (λ r st', (stderr st'.1 = stderr p0 ∧ stdout st'.1 = stdout p0
                ∧ sql_log st'.1 = sql_log p0
                ∧ Forall (λ c, is_chatroom c = endswith (wxid c) "@chatroom")
                    st'.2)
               ∧ match r with
                 | Val _ => True
                 | Exn e => is_OperationalError e = false
                 end) st.
Proof.
  destruct st as [p l]. intros (H1 & H2 & H3 & H4).
  unfold contact_of_v4. apply wp_bind.
  destruct (RowV4.username row) as [w|].
  - apply wp_ret. apply wp_append_and_register. simpl.
    repeat split; try done. apply Forall_app. split; [done|]. by constructor.
  - apply wp_raise. done.
Qed.

Lemma wp_contact_of_old row (p0 : Proc) st :
  stderr st.1 = stderr p0 ∧ stdout st.1 = stdout p0
  ∧ sql_log st.1 = sql_log p0
  ∧ Forall (λ c, is_chatroom c = endswith (wxid c) "@chatroom") st.2 →
  wp (contact_of_old None row)
     (λ r st', (stderr st'.1 = stderr p0 ∧ stdout st'.1 = stdout p0
                ∧ sql_log st'.1 = sql_log p0
                ∧ Forall (λ c, is_chatroom c = endswith (wxid c) "@chatroom")
                    st'.2)
               ∧ match r with
                 | Val _ => True
                 | Exn e => is_OperationalError e = false
                 end) st.
Proof.
  destruct st as [p l]. intros (H1 & H2 & H3 & H4).
  unfold contact_of_old. apply wp_append_and_register. simpl.
  repeat split; try done. apply Forall_app. split; [done|]. by constructor.
Qed.

Lemma get_contacts_spec p db :
  contact_db (self p) = Some db →
  ∃ contacts p',
    get_contacts p = (Val contacts, p')
    ∧ ∃ added,
        Forall (λ c, is_chatroom c = endswith (wxid c) "@chatroom") contacts
        ∧ stdout p' = stdout p
        ∧ sql_log p' = sql_log p ++ (conn_repr db, QContactsV4) :: added
        ∧ match query_error (contacts_v4 db) with
          | Some e =>
            if is_OperationalError e
            then added = [(conn_repr db, QContactsOld)]
            else added = [] ∧ contacts = []
                 ∧ stderr p'
                   = stderr p ++ ["Error getting contacts: " +:+ exn_str e]
          | None => added = []
          end.
Proof.
  intros Hdb. apply wp_val_elim_ex.
  unfold get_contacts. apply wp_bind, wp_get. simpl. rewrite Hdb.
  apply wp_bind, wp_with_local, wp_try, wp_try.
  set (p1 := {| self := self p; stderr := stderr p; stdout := stdout p;
                sql_log := sql_log p ++ [(conn_repr db, QContactsV4)] |}).
  apply (wp_schema_block db QContactsV4 (contacts_v4 db) contact_of_v4
           (λ st, stderr st.1 = stderr p1 ∧ stdout st.1 = stdout p1
                  ∧ sql_log st.1 = sql_log p1
                  ∧ Forall (λ c, is_chatroom c
                                 = endswith (wxid c) "@chatroom") st.2)).
  - done.
  - intros row st. apply wp_contact_of_v4.
  - intros e Hq. rewrite Hq. fold p1.
    destruct (is_OperationalError e) eqn:Hop.
    + set (p2 := {| self := self p1; stderr := stderr p1; stdout := stdout p1;
                    sql_log := sql_log p1 ++ [(conn_repr db, QContactsOld)] |}).
      apply (wp_schema_block db QContactsOld (contacts_old db)
               (contact_of_old None)
               (λ st, stderr st.1 = stderr p2 ∧ stdout st.1 = stdout p2
                      ∧ sql_log st.1 = sql_log p2
                      ∧ Forall (λ c, is_chatroom c
                                     = endswith (wxid c) "@chatroom") st.2)).
      * done.
      * intros row st. apply wp_contact_of_old.
      * intros e2 _. simpl. wp_steps. eexists. split; [reflexivity|].
        exists [(conn_repr db, QContactsOld)]. simpl.
        repeat split; try done. by rewrite <- app_assoc.
      * intros r [p' l'] _ (H1 & H2 & H3 & H4) Hr. simpl in *.
        destruct r as [[]|e2].
        -- wp_steps. eexists. split; [reflexivity|].
           exists [(conn_repr db, QContactsOld)].
           repeat split; try done. by rewrite H3, <- app_assoc.
        -- wp_steps. eexists. split; [reflexivity|].
           exists [(conn_repr db, QContactsOld)]. simpl.
           repeat split; try done. by rewrite H3, <- app_assoc.
    + simpl. wp_steps. eexists. split; [reflexivity|]. exists []. simpl.
      repeat split; done.
  - intros r [p' l'] Hq (H1 & H2 & H3 & H4) Hr. rewrite Hq. simpl in *.
    destruct r as [[]|e].
    + wp_steps. eexists. split; [reflexivity|]. exists []. done.
    + rewrite Hr. simpl. wp_steps. eexists. split; [reflexivity|]. exists [].
      simpl. done.
Qed.
Lemma wp_member_count db name (Q : Res Z → Proc → Prop) p :
  (∀ r, match r with
        | Val n => n = 0
        | Exn e => is_OperationalError e = false
        end →
        Q r {| self := self p; stderr := stderr p; stdout := stdout p;
               sql_log := sql_log p ++ [(conn_repr db, QChatRoomExt name)] |}) →
  wp (_get_chatroom_member_count db name) Q p.
Proof.
  intros HQ. unfold _get_chatroom_member_count. wp_steps.
  destruct (chat_room_ext db name) as [[rows|e]|e]; simpl.
  - wp_steps. by apply HQ.
  - wp_steps. destruct e; simpl; wp_steps; by apply HQ.
  - destruct e; simpl; wp_steps; by apply HQ.
Qed.




(** ** The claims on contacts *)



Lemma cmd_contacts_eq env dir :
  ∃ out p',
    run dir (cmd_contacts env) = (Val tt, p')
    ∧ stdout p' = [JList (map Contact_to_dict out)]
    ∧ Forall (λ c, is_chatroom c = false
                   ∧ endswith (wxid c) "@chatroom" = false) out.
Proof.
  destruct (init_database_spec env dir)
    as (b & p1 & E & _ & Hout & _ & _ & Hc & Hb).
  unfold run, cmd_contacts, mbind, M_bind, bind. rewrite E.
  destruct b.
  - destruct (Hb eq_refl) as [db Hdb]. rewrite Hdb in Hc.
    destruct (get_contacts_spec p1 db Hc)
      as (contacts & p2 & E2 & added & Hflags & Hout2 & _).
    rewrite E2. exists (filter (λ c, is_chatroom c = false) contacts).
    eexists. split; [reflexivity|]. simpl. rewrite Hout2, Hout.
    split; [reflexivity|].
    apply Forall_forall. intros c [Hf Hin]%list_elem_of_filter.
    rewrite Forall_forall in Hflags. split; [done|].
    by rewrite <- (Hflags c Hin).
  - exists []. eexists. split; [reflexivity|]. simpl. rewrite Hout.
    split; [reflexivity|constructor].
Qed.

(** C9.  The [contacts] command prints a list in which every record has
    the kind 'friend' and an identifier that does not end in '@chatroom',
    whatever the store; yet the scan behind it takes chat rooms too: on a
    store that lists a chat room with [local_type] 2 the chat room is
    registered in [contacts_map] and is left out of what is printed. *)
Theorem contacts_command_excludes_chatrooms :
  (∀ (env : Env) (prog dir : string) (rest : list string),
     ∃ out p',
       main env (prog :: "contacts" :: dir :: rest) boot = (Val 0, p')
       ∧ stdout p' = [JList out]
       ∧ Forall (λ d, field "type" d = Some (JStr "friend")
                      ∧ ∃ id, field "id" d = Some (JStr id)
                              ∧ endswith id "@chatroom" = false) out)
  ∧ (∃ p',
       main (Disk.env Sample.with_chatroom None)
         ["wechat_reader.py"; "contacts"; "/r"] boot
       = (Val 0, p')
       ∧ is_chatroom <$> contacts_map (self p') !! "123@chatroom" = Some true
       ∧ stdout p'
         = [JList [JObj [ ("id", JStr "bob"); ("name", JStr "bob");
                          ("alias", JStr ""); ("avatar", JNull);
                          ("type", JStr "friend");
                          ("memberCount", JInt 0) ]]]).
Proof.
  split.
  - intros env prog dir rest.
    destruct (cmd_contacts_eq env dir) as (cs & p' & E & Hout & Hcs).
    exists (map Contact_to_dict cs), p'.
    split; [exact (main_contacts env prog dir rest p' E)|].
    split; [exact Hout|].
    apply Forall_map. eapply Forall_impl; [exact Hcs|].
    intros c [Hflag Hid]. simpl. rewrite Hflag. split; [reflexivity|].
    by exists (wxid c).
  - eexists. split; [vm_compute; reflexivity|].
    split; vm_compute; reflexivity.
Qed.

(** ** The scenarios of the specification *)

(** A new-schema contact store and one shard with the rows of [alice] at
    times 100 and 50: the two messages come back in the order 50, 100,
    with total 2 and no more to fetch. *)
Example scenario_alice :
  stdout (main (Disk.env Sample.alice_disk None)
            ["wechat_reader.py"; "messages"; "/r"; "alice"; "10"; "0"; "0"]
            boot).2
  = [ JObj
        [ ("messages",
           JList
             [ JObj [ ("id", JStr "msg_2"); ("chatId", JStr "alice");
                      ("sender", JStr "alice"); ("content", JStr "earlier");
                      ("timestamp", JInt 50000); ("type", JStr "text");
                      ("isMe", JBool false) ];
               JObj [ ("id", JStr "msg_1"); ("chatId", JStr "alice");
                      ("sender", JStr "alice"); ("content", JStr "later");
                      ("timestamp", JInt 100000); ("type", JStr "text");
                      ("isMe", JBool false) ] ]);
          ("total", JInt 2); ("hasMore", JBool false) ] ].
Proof. vm_compute. reflexivity. Qed.

(** An old-schema store whose only row is an official account: the new
    statement fails, the old one runs, and no contact is listed. *)
Example scenario_old_schema :
  stdout (main (Disk.env Sample.gh_only_disk None)
            ["wechat_reader.py"; "contacts"; "/r"] boot).2
  = [JList []]
  ∧ map snd (sql_log (main (Disk.env Sample.gh_only_disk None)
                        ["wechat_reader.py"; "contacts"; "/r"] boot).2)
    = [QContactsV4; QContactsOld].
Proof. split; vm_compute; reflexivity. Qed.

(** A conversation that no shard holds: the empty list and total 0. *)
Example scenario_no_table :
  (get_messages (Disk.env Sample.alice_disk None) "nobody" 10 0 0
     (Sample.opened Sample.alice_disk)).1
  = Val ([], 0%nat).
Proof. vm_compute. reflexivity. Qed.

(** A shard that is not a database is skipped with a warning, and the
    shards around it are read. *)
Example scenario_broken_shard :
  let r := get_messages (Disk.env Sample.two_shards None) "alice" 10 0 0
             (Sample.opened Sample.two_shards) in
  (option_map (λ x, map create_time x.1)
     match r.1 with Val x => Some x | Exn _ => None end
   = Some [10; 20; 30; 40])
  ∧ stderr r.2
    = ["Error getting messages from <sqlite3.Connection /r/message_1.db>: file is not a database"].
Proof. split; vm_compute; reflexivity. Qed.

(** * Further properties *)

(** ** Sorting with any order *)

Section StableSortFacts.
Context {A : Type} (le : A → A → bool).

Lemma insert_sorted_perm_any x l : insert_sorted le x l ≡ₚ x :: l.
Proof.
  induction l as [|y l IH]; simpl; [done|].
  destruct (le x y); [done|]. rewrite IH. apply Permutation_swap.
Qed.

Lemma stable_sort_perm l : stable_sort le l ≡ₚ l.
Proof.
  induction l as [|x l IH]; simpl; [done|].
  rewrite insert_sorted_perm_any. by constructor.
Qed.

Hypothesis le_total : ∀ x y, le x y = false → le y x = true.
Hypothesis le_trans : ∀ x y z, le x y = true → le y z = true → le x z = true.


End StableSortFacts.

(** ** More on reading messages *)

Lemma row_message_create_time env username row :
  create_time (row_message env username row) = MsgRow.create_time row.
Proof. reflexivity. Qed.

Lemma file_rows_eq my_wxid table since limit offset f :
  file_rows my_wxid table since limit offset f
  = if Sqlite.corrupt f then []
    else match Sqlite.lookup table (Sqlite.msg_tables f) with
         | None => []
         | Some rows =>
           map (file_row my_wxid f)
             (Sqlite.window limit offset
                (Sqlite.order_desc (Sqlite.where_since since rows)))
         end.
Proof.
  unfold file_rows, file_row, Sqlite.select_messages.
  destruct (Sqlite.corrupt f); [done|].
  destruct (Sqlite.lookup _ _); [|done]. by destruct (Sqlite.Name2Id f).
Qed.

Lemma window_subseteq {R} limit offset (l : list R) :
  Sqlite.window limit offset l ⊆ l.
Proof.
  unfold Sqlite.window. intros x Hx.
  destruct (limit <? 0).
  - by eapply subseteq_drop.
  - eapply subseteq_drop, subseteq_take. exact Hx.
Qed.

(** Every row a file yields comes from a stored row that passes the
    [WHERE] clause. *)
Lemma file_rows_sources my_wxid table since limit offset f row :
  row ∈ file_rows my_wxid table since limit offset f →
  ∃ rows r,
    Sqlite.lookup table (Sqlite.msg_tables f) = Some rows
    ∧ r ∈ Sqlite.where_since since rows
    ∧ row = file_row my_wxid f r.
Proof.
  rewrite file_rows_eq. destruct (Sqlite.corrupt f); [by intros ?%elem_of_nil|].
  destruct (Sqlite.lookup _ _) as [rows|]; [|by intros ?%elem_of_nil].
  intros (r & -> & Hr)%list_elem_of_fmap. exists rows, r.
  split; [done|]. split; [|done].
  apply window_subseteq in Hr. unfold Sqlite.order_desc in Hr.
  by rewrite stable_sort_perm in Hr.
Qed.

(** [get_messages] over shards that are SQLite files. *)
Lemma get_messages_files env username limit offset start_time p files :
  message_dbs (self p) = map Sqlite.connect files →
  ∃ p',
    get_messages env username limit offset start_time p
    = (Val (list_sort create_time
              (flat_map
                 (λ f, map (row_message env username)
                         (file_rows (_get_my_wxid env (self p))
                            (table_name_of username)
                            (since_of start_time) limit offset f))
                 files),
            length (list_sort create_time
              (flat_map
                 (λ f, map (row_message env username)
                         (file_rows (_get_my_wxid env (self p))
                            (table_name_of username)
                            (since_of start_time) limit offset f))
                 files))),
       p')
    ∧ self p' = self p ∧ stdout p' = stdout p.
Proof.
  intros Hdbs.
  destruct (get_messages_spec env username limit offset start_time p)
    as (p' & E & Hself & Hout & _).
  exists p'. split; [|done]. rewrite E. rewrite Hdbs.
  assert (Hflat : ∀ fs,
    flat_map (shard_messages env (self p) (table_name_of username)
                username limit offset start_time) (map Sqlite.connect fs)
    = flat_map (λ f, map (row_message env username)
                       (file_rows (_get_my_wxid env (self p))
                          (table_name_of username)
                          (since_of start_time) limit offset f)) fs).
  { induction fs as [|f fs IH]; simpl; [done|]. rewrite IH. f_equal.
    apply sqlite_shard_messages, table_name_shape. }
  by rewrite Hflat.
Qed.

(** A property of the messages built from stored rows holds of every
    message returned. *)
Lemma get_messages_files_Forall (P : Message → Prop)
    env username limit offset start_time p files :
  message_dbs (self p) = map Sqlite.connect files →
  (∀ f rows r,
     f ∈ files →
     Sqlite.lookup (table_name_of username) (Sqlite.msg_tables f) = Some rows →
     r ∈ Sqlite.where_since (since_of start_time) rows →
     P (row_message env username
          (file_row (_get_my_wxid env (self p)) f r))) →
  ∃ msgs p',
    get_messages env username limit offset start_time p
    = (Val (msgs, length msgs), p')
    ∧ Forall P msgs.
Proof.
  intros Hdbs HP.
  destruct (get_messages_files env username limit offset start_time p files
              Hdbs) as (p' & E & _).
  eexists _, p'. split; [exact E|].
  rewrite list_sort_perm. apply Forall_flat_map, Forall_forall.
  intros f Hf. apply Forall_map, Forall_forall. intros row Hrow.
  destruct (file_rows_sources _ _ _ _ _ _ _ Hrow) as (rows & r & Hl & Hr & ->).
  by eapply HP.
Qed.


(** X2.  [start_time] is a lower bound only when it is positive.  With
    zero or a negative value the call is the call with no bound at all;
    with a positive value, over shards that are SQLite files, no message
    older than [start_time] is returned. *)
Theorem get_messages_start_time (env : Env) (username : string)
    (limit offset start_time : Z) (p : Proc) :
  (start_time ≤ 0 →
   get_messages env username limit offset start_time p
   = get_messages env username limit offset 0 p)
  ∧ (∀ files,
       message_dbs (self p) = map Sqlite.connect files →
       0 < start_time →
       ∃ msgs p',
         get_messages env username limit offset start_time p
         = (Val (msgs, length msgs), p')
         ∧ Forall (λ m, start_time ≤ create_time m) msgs).
Proof.
  split.
  - intros Hle. unfold get_messages, get_messages_from, read_shard.
    assert (Hs : since_of start_time = since_of 0).
    { unfold since_of. destruct (Z.ltb_spec 0 start_time); [lia|done]. }
    by rewrite Hs.
  - intros files Hdbs Hpos.
    apply (get_messages_files_Forall _ _ _ _ _ _ _ files Hdbs).
    intros f rows r _ _ Hr. rewrite row_message_create_time.
    assert (Hs : since_of start_time = Some start_time).
    { unfold since_of. destruct (Z.ltb_spec 0 start_time); [done|lia]. }
    rewrite Hs in Hr. simpl in Hr. apply list_elem_of_filter in Hr as [Hr _].
    unfold file_row. by destruct (Sqlite.Name2Id f).
Qed.

Lemma get_messages_start_time_witness :
  get_messages (Disk.env Sample.two_shards None) "alice" 10 0 (-5)
    (Sample.opened Sample.two_shards)
  = get_messages (Disk.env Sample.two_shards None) "alice" 10 0 0
      (Sample.opened Sample.two_shards)
  ∧ ∃ msgs p',
      get_messages (Disk.env Sample.two_shards None) "alice" 10 0 25
        (Sample.opened Sample.two_shards)
      = (Val (msgs, length msgs), p')
      ∧ Forall (λ m, 25 ≤ create_time m) msgs.
Proof.
  split.
  - apply (proj1 (get_messages_start_time (Disk.env Sample.two_shards None)
                    "alice" 10 0 (-5) (Sample.opened Sample.two_shards))).
    lia.
  - apply (proj2 (get_messages_start_time (Disk.env Sample.two_shards None)
                    "alice" 10 0 25 (Sample.opened Sample.two_shards))
             (drop 1 (Disk.files Sample.two_shards))).
    + reflexivity.
    + lia.
Defined.













(** ** The statements [get_messages] executes *)






(** ** More on opening the stores *)

Lemma open_db_eq env path store (s : Proc) :
  open_db env path store s
  = match sqlite3_connect env path with
    | Val db => (Val tt, with_self (store db) s)
    | Exn e => (Exn e, s)
    end.
Proof.
  unfold open_db, mbind, M_bind, bind, lift.
  by destruct (sqlite3_connect env path).
Qed.

Lemma open_numbered_eq env dir i count (s : Proc) :
  open_numbered env dir i count s
  = (outcome_of (connect_all env (numbered_paths env dir i count)).2,
     with_shards (connect_all env (numbered_paths env dir i count)).1 s).
Proof.
  revert i s. induction count as [|count IH]; intros i s; [done|].
  rewrite open_numbered_unfold, numbered_paths_unfold.
  destruct (path_exists env _); [|done].
  unfold mbind, M_bind, bind. rewrite open_db_eq. cbn [connect_all].
  destruct (sqlite3_connect env _) as [db|e]; [|done].
  rewrite IH. by destruct (connect_all env _) as [dbs err].
Qed.

Lemma open_listed_eq env folder names (s : Proc) :
  for_each names (λ filename,
    if startswith filename "MSG" && endswith filename ".db" then
      open_db env (path_join folder [filename]) append_message_db
    else mret tt) s
  = (outcome_of
       (connect_all env
          (map (λ name, path_join folder [name])
             (List.filter
                (λ name, startswith name "MSG" && endswith name ".db")
                names))).2,
     with_shards
       (connect_all env
          (map (λ name, path_join folder [name])
             (List.filter
                (λ name, startswith name "MSG" && endswith name ".db")
                names))).1 s).
Proof.
  revert s. induction names as [|name names IH]; intros s; [done|].
  cbn [for_each List.filter]. unfold bind.
  destruct (startswith name "MSG" && endswith name ".db").
  - rewrite open_db_eq. cbn [map connect_all].
    destruct (sqlite3_connect env _) as [db|e]; [|done].
    rewrite IH. by destruct (connect_all env _) as [dbs err].
  - apply IH.
Qed.

(** The block under [# Message databases] opens the located files one
    after the other and stops at the first that cannot be opened. *)
Lemma wp_open_message_shards env dir (Q : Res unit → Proc → Prop) s :
  match shard_paths env dir with
  | Exn e => Q (Exn e) s
  | Val paths =>
    Q (outcome_of (connect_all env paths).2)
      (with_shards (connect_all env paths).1 s)
  end →
  wp (open_message_shards env dir) Q s.
Proof.
  unfold shard_paths, open_message_shards, wp, mbind, M_bind, bind.
  destruct (path_exists env (path_join dir ["message_0.db"])).
  - rewrite open_numbered_eq.
    destruct (connect_all env _) as [dbs [e|]]; simpl; done.
  - simpl. destruct (path_exists env (path_join dir ["message"])); simpl.
    + by rewrite open_numbered_eq.
    + destruct (path_exists env (path_join dir ["Msg"])); [|done].
      unfold lift. destruct (listdir env _) as [names|e]; [|done].
      by rewrite open_listed_eq.
Qed.

Lemma with_shards_fields dbs p :
  stderr (with_shards dbs p) = stderr p
  ∧ stdout (with_shards dbs p) = stdout p
  ∧ sql_log (with_shards dbs p) = sql_log p
  ∧ db_dir (self (with_shards dbs p)) = db_dir (self p)
  ∧ contact_db (self (with_shards dbs p)) = contact_db (self p)
  ∧ session_db (self (with_shards dbs p)) = session_db (self p)
  ∧ contacts_map (self (with_shards dbs p)) = contacts_map (self p)
  ∧ _initialized (self (with_shards dbs p)) = _initialized (self p)
  ∧ message_dbs (self (with_shards dbs p)) = message_dbs (self p) ++ dbs.
Proof.
  revert p. induction dbs as [|db dbs IH]; intros p; simpl.
  - by rewrite app_nil_r.
  - destruct (IH (with_self (append_message_db db) p))
      as (-> & -> & -> & -> & -> & -> & -> & -> & ->).
    simpl. by rewrite <- app_assoc.
Qed.

Lemma connect_all_ok env paths dbs :
  Forall2 (λ path db, sqlite3_connect env path = Val db) paths dbs →
  connect_all env paths = (dbs, None).
Proof.
  induction 1 as [|path db paths dbs Hc _ IH]; simpl; [done|].
  by rewrite Hc, IH.
Qed.

Lemma connect_all_fails env pre bad post dbs e :
  Forall2 (λ path db, sqlite3_connect env path = Val db) pre dbs →
  sqlite3_connect env bad = Exn e →
  connect_all env (pre ++ bad :: post) = (dbs, Some e).
Proof.
  intros Hpre Hbad.
  induction Hpre as [|path db pre dbs Hc _ IH]; simpl.
  - by rewrite Hbad.
  - by rewrite Hc, IH.
Qed.

Lemma init_database_located env dir paths dbs :
  contact_opens env dir →
  session_opens env dir →
  shard_paths env dir = Val paths →
  Forall2 (λ path db, sqlite3_connect env path = Val db) paths dbs →
  ∃ p',
    init_database env (start dir)
    = (Val (bool_decide (is_Some (contact_conn env dir))), p')
    ∧ message_dbs (self p') = dbs
    ∧ contact_db (self p') = contact_conn env dir
    ∧ _initialized (self p') = bool_decide (is_Some (contact_conn env dir))
    ∧ stderr p' = []
    ∧ sql_log p' = [].
Proof.
  intros Hcontact Hsess Hpaths Hdbs.
  apply (wp_val_elim _ _
           (λ p', message_dbs (self p') = dbs
                  ∧ contact_db (self p') = contact_conn env dir
                  ∧ _initialized (self p')
                    = bool_decide (is_Some (contact_conn env dir))
                  ∧ stderr p' = [] ∧ sql_log p' = [])).
  unfold init_database. apply wp_try, wp_bind, wp_get. simpl.
  apply wp_bind, wp_open_contact_store.
  assert (Hc : contact_conn env dir
               = match find (path_exists env) (contact_candidates dir) with
                 | Some path =>
                   match sqlite3_connect env path with
                   | Val db => Some db
                   | Exn _ => None
                   end
                 | None => None
                 end) by reflexivity.
  unfold contact_opens in Hcontact. unfold session_opens in Hsess.
  destruct (find (path_exists env) (contact_candidates dir)) as [path|];
    [destruct (Hcontact path eq_refl) as [db Hdb]; rewrite Hdb in *|];
    (apply wp_bind, wp_open_session_store;
     destruct (find (path_exists env) (session_candidates dir)) as [q|];
     [destruct (Hsess q eq_refl) as [sdb ->]|]);
    apply wp_bind, wp_open_message_shards;
    rewrite Hpaths, (connect_all_ok _ _ _ Hdbs); cbn [fst snd outcome_of];
    apply wp_bind, wp_get; cbn beta iota;
    apply wp_bind, wp_modify, wp_ret; rewrite Hc;
    match goal with
    | |- context [with_shards dbs ?s] =>
      destruct (with_shards_fields dbs s)
        as (H1 & H2 & H3 & H4 & H5 & H6 & H7 & H8 & H9)
    end; simpl in *; rewrite ?H1, ?H3, ?H5, ?H9; done.
Qed.

(** X7.  When the stores that exist can be opened, [init_database] opens
    exactly the shard files it locates, in the order it locates them: the
    shard list of the reader holds one connection for each located file
    and nothing else.  It then reports whether a contact store was found,
    prints nothing and executes no statement. *)
Theorem init_database_opens_located_shards (env : Env) (dir : string)
    (paths : list string) (dbs : list Connection) :
  contact_opens env dir →
  session_opens env dir →
  shard_paths env dir = Val paths →
  Forall2 (λ path db, sqlite3_connect env path = Val db) paths dbs →
  ∃ p',
    init_database env (start dir)
    = (Val (bool_decide (is_Some (contact_conn env dir))), p')
    ∧ message_dbs (self p') = dbs
    ∧ contact_db (self p') = contact_conn env dir
    ∧ _initialized (self p') = bool_decide (is_Some (contact_conn env dir))
    ∧ stderr p' = []
    ∧ sql_log p' = [].
Proof. apply init_database_located. Qed.

Lemma init_database_opens_located_shards_witness :
  ∃ p',
    init_database (Disk.env Sample.two_shards None) (start "/r")
    = (Val true, p')
    ∧ message_dbs (self p')
      = map Sqlite.connect (drop 1 (Disk.files Sample.two_shards)).
Proof.
  destruct (init_database_opens_located_shards
              (Disk.env Sample.two_shards None) "/r"
              ["/r/message_0.db"; "/r/message_1.db"; "/r/message_2.db"]
              (map Sqlite.connect (drop 1 (Disk.files Sample.two_shards))))
    as (p' & E & Hdbs & _).
  - intros path Hpath. vm_compute in Hpath. injection Hpath as <-.
    eexists. reflexivity.
  - intros path Hpath. vm_compute in Hpath. discriminate.
  - vm_compute. reflexivity.
  - repeat constructor.
  - exists p'. split; [exact E|exact Hdbs].
Defined.





(** X9.  One shard file that cannot be opened makes the whole
    initialization fail: [init_database] prints the error, returns False
    and leaves [_initialized] False, although the contact store is open
    and the shards before the failing one stay in the shard list; the
    files after it are not opened.  The status then reports a contact
    store and no initialization. *)
Theorem init_database_aborts_on_failing_shard (env : Env) (dir : string)
    (db : Connection) (pre : list string) (bad : string)
    (post : list string) (dbs : list Connection) (e : exn) :
  contact_conn env dir = Some db →
  session_opens env dir →
  shard_paths env dir = Val (pre ++ bad :: post) →
  Forall2 (λ path db, sqlite3_connect env path = Val db) pre dbs →
  sqlite3_connect env bad = Exn e →
  ∃ p',
    init_database env (start dir) = (Val false, p')
    ∧ stderr p' = ["Error initializing database: " +:+ exn_str e]
    ∧ contact_db (self p') = Some db
    ∧ message_dbs (self p') = dbs
    ∧ _initialized (self p') = false
    ∧ field "initialized" (get_status (self p')) = Some (JBool false)
    ∧ field "hasContactDb" (get_status (self p')) = Some (JBool true)
    ∧ field "messageDbCount" (get_status (self p'))
      = Some (JInt (Z.of_nat (length dbs))).
Proof.
  intros Hcontact Hsess Hpaths Hpre Hbad.
  cut (∃ p',
         init_database env (start dir) = (Val false, p')
         ∧ stderr p' = ["Error initializing database: " +:+ exn_str e]
         ∧ contact_db (self p') = Some db
         ∧ message_dbs (self p') = dbs
         ∧ _initialized (self p') = false).
  { intros (p' & E & Herr & Hc & Hm & Hi). exists p'.
    repeat (split; [done|]). simpl. by rewrite Hi, Hc, Hm. }
  apply (wp_val_elim _ _
           (λ p', stderr p' = ["Error initializing database: " +:+ exn_str e]
                  ∧ contact_db (self p') = Some db
                  ∧ message_dbs (self p') = dbs
                  ∧ _initialized (self p') = false)).
  unfold init_database. apply wp_try, wp_bind, wp_get. simpl.
  apply wp_bind, wp_open_contact_store.
  unfold contact_conn in Hcontact. unfold session_opens in Hsess.
  destruct (find (path_exists env) (contact_candidates dir)) as [path|];
    [|discriminate].
  destruct (sqlite3_connect env path) as [db'|]; [|discriminate].
  injection Hcontact as ->.
  apply wp_bind, wp_open_session_store;
    destruct (find (path_exists env) (session_candidates dir)) as [q|];
    [destruct (Hsess q eq_refl) as [sdb ->]|];
    apply wp_bind, wp_open_message_shards;
    rewrite Hpaths, (connect_all_fails _ _ _ _ _ _ Hpre Hbad);
    cbn [fst snd outcome_of is_Exception];
    apply wp_bind, wp_modify, wp_ret;
    match goal with
    | |- context [with_shards dbs ?s] =>
      destruct (with_shards_fields dbs s)
        as (H1 & H2 & H3 & H4 & H5 & H6 & H7 & H8 & H9)
    end; simpl in *; rewrite ?H1, ?H5, ?H8, ?H9; done.
Qed.

Lemma init_database_aborts_on_failing_shard_witness :
  ∃ p',
    init_database (Disk.env Fixture.shard_is_directory None) (start "/r")
    = (Val false, p')
    ∧ stderr p'
      = ["Error initializing database: unable to open database file"]
    ∧ field "hasContactDb" (get_status (self p')) = Some (JBool true).
Proof.
  destruct (init_database_aborts_on_failing_shard
              (Disk.env Fixture.shard_is_directory None) "/r"
              (Sqlite.connect (Sample.contact_store "/r/contact.db" []))
              ["/r/message_0.db"] "/r/message_1.db" []
              [Sqlite.connect
                 (Sample.shard "/r/message_0.db" Sample.alice_table [])]
              (OperationalError "unable to open database file"))
    as (p' & E & Herr & _ & _ & _ & _ & Hs & _).
  - reflexivity.
  - intros path Hpath. vm_compute in Hpath. discriminate.
  - vm_compute. reflexivity.
  - repeat constructor.
  - reflexivity.
  - exists p'. split; [exact E|]. split; [exact Herr|exact Hs].
Defined.

(** X10.  [init_database] never raises and ends in one of two ways.
    Either nothing is printed and the result is whether a contact store
    is open; or one line [Error initializing database: ...] is printed
    and the result is False.  In both cases [_initialized] is the result,
    nothing goes to standard output, no statement is executed and the
    contact registry stays empty. *)
Theorem init_database_outcomes (env : Env) (dir : string) :
  ∃ b p',
    init_database env (start dir) = (Val b, p')
    ∧ _initialized (self p') = b
    ∧ stdout p' = []
    ∧ sql_log p' = []
    ∧ contacts_map (self p') = ∅
    ∧ ((stderr p' = []
        ∧ b = bool_decide (is_Some (contact_db (self p'))))
       ∨ (∃ e, stderr p' = ["Error initializing database: " +:+ exn_str e]
               ∧ b = false)).
Proof.
  apply wp_val_elim_ex.
  unfold init_database. apply wp_try, wp_bind, wp_get. simpl.
  assert (Hfail : ∀ e dbs s,
            stderr s = [] → stdout s = [] → sql_log s = [] →
            contacts_map (self s) = ∅ → _initialized (self s) = false →
            wp (eprint ("Error initializing database: " +:+ exn_str e);;
                mret false)
               (λ r p', ∃ b, r = Val b
                  ∧ _initialized (self p') = b ∧ stdout p' = []
                  ∧ sql_log p' = [] ∧ contacts_map (self p') = ∅
                  ∧ ((stderr p' = []
                      ∧ b = bool_decide (is_Some (contact_db (self p'))))
                     ∨ (∃ e, stderr p'
                             = ["Error initializing database: "
                                +:+ exn_str e] ∧ b = false)))
               (with_shards dbs s)).
  { intros e dbs s H1 H2 H3 H4 H5.
    destruct (with_shards_fields dbs s)
      as (G1 & G2 & G3 & _ & _ & _ & G7 & G8 & _).
    wp_steps. exists false. rewrite G1, G2, G3, G7, G8, H1.
    repeat (split; [done|]). right. by exists e. }
  assert (Hrest : ∀ s,
            stderr s = [] → stdout s = [] → sql_log s = [] →
            contacts_map (self s) = ∅ → _initialized (self s) = false →
            message_dbs (self s) = [] →
            wp (open_message_shards env dir ≫= λ _,
                get_state ≫= λ p,
                modify (with_self
                          (set_initialized
                             (bool_decide (is_Some (contact_db (self p))))))
                ≫= λ _, mret (bool_decide (is_Some (contact_db (self p)))))
               (λ r p', match r with
                        | Val a =>
                          ∃ b, Val a = Val b
                            ∧ _initialized (self p') = b ∧ stdout p' = []
                            ∧ sql_log p' = [] ∧ contacts_map (self p') = ∅
                            ∧ ((stderr p' = []
                                ∧ b = bool_decide
                                        (is_Some (contact_db (self p'))))
                               ∨ (∃ e, stderr p'
                                       = ["Error initializing database: "
                                          +:+ exn_str e] ∧ b = false))
                        | Exn e =>
                          if is_Exception e
                          then wp (eprint ("Error initializing database: "
                                           +:+ exn_str e);; mret false)
                                 (λ r p', ∃ b, r = Val b
                                    ∧ _initialized (self p') = b
                                    ∧ stdout p' = []
                                    ∧ sql_log p' = []
                                    ∧ contacts_map (self p') = ∅
                                    ∧ ((stderr p' = []
                                        ∧ b = bool_decide
                                                (is_Some
                                                   (contact_db (self p'))))
                                       ∨ (∃ e, stderr p'
                                               = ["Error initializing database: "
                                                  +:+ exn_str e]
                                               ∧ b = false))) p'
                          else False
                        end) s).
  { intros s H1 H2 H3 H4 H5 H6.
    apply wp_bind, wp_open_message_shards.
    destruct (shard_paths env dir) as [paths|e].
    - destruct (connect_all env paths) as [dbs [e|]]; simpl.
      + by apply Hfail.
      + destruct (with_shards_fields dbs s)
          as (G1 & G2 & G3 & _ & G5 & _ & G7 & G8 & _).
        wp_steps. eexists. split; [reflexivity|].
        rewrite G1, G2, G3, G5, G7, H1. repeat (split; [done|]). by left.
    - simpl. apply (Hfail e [] s); done. }
  apply wp_bind, wp_open_contact_store.
  destruct (find (path_exists env) (contact_candidates dir)) as [path|];
    [destruct (sqlite3_connect env path) as [db|e]|];
    [| simpl; by apply (Hfail e [] (start dir)) |];
    (apply wp_bind, wp_open_session_store;
     destruct (find (path_exists env) (session_candidates dir)) as [q|];
     [destruct (sqlite3_connect env q) as [sdb|e']|];
     [| simpl;
        match goal with
        | |- wp _ _ ?s => by apply (Hfail e' [] s)
        end |]);
    by apply Hrest.
Qed.

(** ** The registry of contacts *)

Lemma str_or_nonempty x d : d ≠ "" → str_or x d ≠ "".
Proof.
  intros Hd. unfold str_or. destruct x as [s|]; [|done].
  by destruct (String.eqb_spec s "").
Qed.

Ltac shape_tac :=
  unfold contact_shape, group_shape, named; simpl;
  repeat match goal with
         | |- _ ∧ _ => split
         | |- _ → _ => intro
         end;
  try done; repeat apply str_or_nonempty; done.

Lemma registered_snoc cs c rd :
  registered (cs ++ [c]) rd = register_contact c (registered cs rd).
Proof. unfold registered. by rewrite fold_left_app. Qed.

Lemma wp_register_inv P p0 c st :
  scan_inv P p0 st → P c →
  wp (append_and_register c)
     (λ r st', scan_inv P p0 st'
               ∧ match r with
                 | Val _ => True
                 | Exn e => is_OperationalError e = false
                 end) st.
Proof.
  destruct st as [p l]. intros (H1 & H2 & H3 & H4) Hc.
  apply wp_append_and_register. simpl in *. split; [|done].
  unfold scan_inv. simpl. rewrite registered_snoc, H3.
  repeat (split; [done|]). apply Forall_app. split; [done|]. by constructor.
Qed.

Lemma wp_contact_of_v4_inv row p0 st :
  scan_inv contact_shape p0 st →
  wp (contact_of_v4 row)
     (λ r st', scan_inv contact_shape p0 st'
               ∧ match r with
                 | Val _ => True
                 | Exn e => is_OperationalError e = false
                 end) st.
Proof.
  intros Hinv. unfold contact_of_v4. apply wp_bind.
  destruct (RowV4.username row) as [w|].
  - apply wp_ret. apply wp_register_inv; [done|].
    shape_tac.
  - destruct st. by apply wp_raise.
Qed.

Lemma wp_contact_of_old_inv row p0 st :
  scan_inv contact_shape p0 st →
  wp (contact_of_old None row)
     (λ r st', scan_inv contact_shape p0 st'
               ∧ match r with
                 | Val _ => True
                 | Exn e => is_OperationalError e = false
                 end) st.
Proof.
  intros Hinv. unfold contact_of_old. apply wp_register_inv; [done|].
  shape_tac.
Qed.

Lemma wp_group_of_old_inv row p0 st :
  scan_inv group_shape p0 st →
  wp (contact_of_old (Some true) row)
     (λ r st', scan_inv group_shape p0 st'
               ∧ match r with
                 | Val _ => True
                 | Exn e => is_OperationalError e = false
                 end) st.
Proof.
  intros Hinv. unfold contact_of_old. apply wp_register_inv; [done|].
  shape_tac.
Qed.

Lemma wp_group_of_v4_inv db row p0 st :
  scan_inv group_shape p0 st →
  wp (group_of_v4 db row)
     (λ r st', scan_inv group_shape p0 st'
               ∧ match r with
                 | Val _ => True
                 | Exn e => is_OperationalError e = false
                 end) st.
Proof.
  destruct st as [p l]. intros Hinv.
  unfold group_of_v4. apply wp_bind, wp_outer, wp_member_count.
  intros [n|e] Hr.
  - subst n. apply wp_register_inv; [exact Hinv|].
    shape_tac.
  - split; [exact Hinv|done].
Qed.

(** [get_contacts] always returns; what it returns is registered, in
    order, and nothing else of the reader changes. *)
Lemma get_contacts_registry p :
  ∃ contacts p',
    get_contacts p = (Val contacts, p')
    ∧ self p' = registered contacts (self p)
    ∧ stdout p' = stdout p
    ∧ Forall contact_shape contacts
    ∧ (stderr p' = stderr p
       ∨ ∃ e, stderr p' = stderr p ++ ["Error getting contacts: "
                                        +:+ exn_str e]).
Proof.
  apply wp_val_elim_ex.
  unfold get_contacts. apply wp_bind, wp_get. simpl.
  destruct (contact_db (self p)) as [db|];
    [|apply wp_ret; exists []; repeat split; (by left) || by constructor].
  apply wp_bind, wp_with_local, wp_try, wp_try.
  assert (Hend : ∀ (r : Res unit) st,
            scan_inv contact_shape p st →
            match r with
            | Val a => ∃ cs, Val st.2 = Val cs
                ∧ self st.1 = registered cs (self p)
                ∧ stdout st.1 = stdout p ∧ Forall contact_shape cs
                ∧ (stderr st.1 = stderr p
                   ∨ ∃ e, stderr st.1 = stderr p ++ ["Error getting contacts: "
                                                      +:+ exn_str e])
            | Exn e =>
              wp (outer (eprint ("Error getting contacts: " +:+ exn_str e)))
                (λ r sl, match r with
                         | Val _ =>
                           wp (mret sl.2)
                             (λ r p', ∃ cs, r = Val cs
                                ∧ self p' = registered cs (self p)
                                ∧ stdout p' = stdout p
                                ∧ Forall contact_shape cs
                                ∧ (stderr p' = stderr p
                                   ∨ ∃ e, stderr p'
                                          = stderr p
                                            ++ ["Error getting contacts: "
                                                +:+ exn_str e])) sl.1
                         | Exn e' => False
                         end) st
            end).
  { intros r [p' l'] (H1 & H2 & H3 & H4). simpl in *. destruct r as [[]|e].
    - exists l'. auto 10.
    - wp_steps. exists l'. rewrite H1. eauto 10. }
  apply (wp_schema_block db QContactsV4 (contacts_v4 db) contact_of_v4
           (scan_inv contact_shape p)).
  - by repeat split.
  - intros row st. apply wp_contact_of_v4_inv.
  - intros e Hq. destruct (is_OperationalError e) eqn:Hop.
    + apply (wp_schema_block db QContactsOld (contacts_old db)
               (contact_of_old None) (scan_inv contact_shape p)).
      * by repeat split.
      * intros row st. apply wp_contact_of_old_inv.
      * intros e2 _. simpl. apply (Hend (Exn e2) (_, [])). by repeat split.
      * intros r st' _ Hinv Hr. simpl. by apply (Hend r st').
    + simpl. apply (Hend (Exn e) (_, [])). by repeat split.
  - intros r st' _ Hinv Hr. destruct r as [[]|e].
    + simpl. by apply (Hend (Val tt) st').
    + rewrite Hr. simpl. by apply (Hend (Exn e) st').
Qed.

Lemma get_groups_registry p :
  ∃ groups p',
    get_groups p = (Val groups, p')
    ∧ self p' = registered groups (self p)
    ∧ stdout p' = stdout p
    ∧ Forall group_shape groups
    ∧ (stderr p' = stderr p
       ∨ ∃ e, stderr p' = stderr p ++ ["Error getting groups: "
                                        +:+ exn_str e]).
Proof.
  apply wp_val_elim_ex.
  unfold get_groups. apply wp_bind, wp_get. simpl.
  destruct (contact_db (self p)) as [db|];
    [|apply wp_ret; exists []; repeat split; (by left) || by constructor].
  apply wp_bind, wp_with_local, wp_try, wp_try.
  assert (Hend : ∀ (r : Res unit) st,
            scan_inv group_shape p st →
            match r with
            | Val a => ∃ cs, Val st.2 = Val cs
                ∧ self st.1 = registered cs (self p)
                ∧ stdout st.1 = stdout p ∧ Forall group_shape cs
                ∧ (stderr st.1 = stderr p
                   ∨ ∃ e, stderr st.1 = stderr p ++ ["Error getting groups: "
                                                      +:+ exn_str e])
            | Exn e =>
              wp (outer (eprint ("Error getting groups: " +:+ exn_str e)))
                (λ r sl, match r with
                         | Val _ =>
                           wp (mret sl.2)
                             (λ r p', ∃ cs, r = Val cs
                                ∧ self p' = registered cs (self p)
                                ∧ stdout p' = stdout p
                                ∧ Forall group_shape cs
                                ∧ (stderr p' = stderr p
                                   ∨ ∃ e, stderr p'
                                          = stderr p
                                            ++ ["Error getting groups: "
                                                +:+ exn_str e])) sl.1
                         | Exn e' => False
                         end) st
            end).
  { intros r [p' l'] (H1 & H2 & H3 & H4). simpl in *. destruct r as [[]|e].
    - exists l'. auto 10.
    - wp_steps. exists l'. rewrite H1. eauto 10. }
  apply (wp_schema_block db QGroupsV4 (groups_v4 db) (group_of_v4 db)
           (scan_inv group_shape p)).
  - by repeat split.
  - intros row st. apply wp_group_of_v4_inv.
  - intros e Hq. destruct (is_OperationalError e) eqn:Hop.
    + apply (wp_schema_block db QGroupsOld (groups_old db)
               (contact_of_old (Some true)) (scan_inv group_shape p)).
      * by repeat split.
      * intros row st. apply wp_group_of_old_inv.
      * intros e2 _. simpl. apply (Hend (Exn e2) (_, [])). by repeat split.
      * intros r st' _ Hinv Hr. simpl. by apply (Hend r st').
    + simpl. apply (Hend (Exn e) (_, [])). by repeat split.
  - intros r st' _ Hinv Hr. destruct r as [[]|e].
    + simpl. by apply (Hend (Val tt) st').
    + rewrite Hr. simpl. by apply (Hend (Exn e) st').
Qed.

Lemma registered_fields cs rd :
  db_dir (registered cs rd) = db_dir rd
  ∧ contact_db (registered cs rd) = contact_db rd
  ∧ session_db (registered cs rd) = session_db rd
  ∧ message_dbs (registered cs rd) = message_dbs rd
  ∧ _initialized (registered cs rd) = _initialized rd.
Proof.
  revert rd. induction cs as [|c cs IH]; intros rd; [done|].
  change (registered (c :: cs) rd) with (registered cs (register_contact c rd)).
  destruct (IH (register_contact c rd)) as (-> & -> & -> & -> & ->). done.
Qed.

(** The registry after a scan: under each identifier, the last record
    returned with it, and what was there before when none was. *)
Lemma registered_lookup cs rd k :
  contacts_map (registered cs rd) !! k
  = match last (filter (λ c, wxid c = k) cs) with
    | Some c => Some c
    | None => contacts_map rd !! k
    end.
Proof.
  revert rd. induction cs as [|c cs IH] using rev_ind; intros rd; [done|].
  rewrite registered_snoc, filter_app. simpl.
  rewrite filter_cons, filter_nil.
  destruct (decide (wxid c = k)) as [<-|Hne].
  - rewrite last_snoc. apply lookup_insert_eq.
  - rewrite app_nil_r, lookup_insert_ne by done. apply IH.
Qed.

Lemma registered_keyed cs rd :
  keyed_by_wxid (contacts_map rd) →
  keyed_by_wxid (contacts_map (registered cs rd)).
Proof.
  intros Hk k c. rewrite registered_lookup.
  destruct (last _) as [c'|] eqn:Hl; [|apply Hk].
  intros [= ->]. apply last_Some_elem_of in Hl.
  by apply list_elem_of_filter in Hl as [? _].
Qed.

(** X11.  [get_contacts] and [get_groups] never raise, and each changes
    the reader in one way only: the records it returns are put into
    [contacts_map] under their identifiers, in the order returned, so that
    an identifier returned twice keeps the later record and an identifier
    not returned keeps what it had.  The connections, the flag and
    standard output are left as they were. *)
Theorem scans_register_what_they_return (p : Proc) :
  (∃ contacts p',
     get_contacts p = (Val contacts, p')
     ∧ (∀ k, contacts_map (self p') !! k
             = match last (filter (λ c, wxid c = k) contacts) with
               | Some c => Some c
               | None => contacts_map (self p) !! k
               end)
     ∧ contact_db (self p') = contact_db (self p)
     ∧ session_db (self p') = session_db (self p)
     ∧ message_dbs (self p') = message_dbs (self p)
     ∧ _initialized (self p') = _initialized (self p)
     ∧ stdout p' = stdout p)
  ∧ (∃ groups p',
       get_groups p = (Val groups, p')
       ∧ (∀ k, contacts_map (self p') !! k
               = match last (filter (λ c, wxid c = k) groups) with
                 | Some c => Some c
                 | None => contacts_map (self p) !! k
                 end)
       ∧ contact_db (self p') = contact_db (self p)
       ∧ session_db (self p') = session_db (self p)
       ∧ message_dbs (self p') = message_dbs (self p)
       ∧ _initialized (self p') = _initialized (self p)
       ∧ stdout p' = stdout p).
Proof.
  split.
  - destruct (get_contacts_registry p) as (cs & p' & E & Hself & Hout & _).
    exists cs, p'. split; [exact E|]. rewrite Hself.
    destruct (registered_fields cs (self p)) as (_ & -> & -> & -> & ->).
    split; [intros k; apply registered_lookup|done].
  - destruct (get_groups_registry p) as (cs & p' & E & Hself & Hout & _).
    exists cs, p'. split; [exact E|]. rewrite Hself.
    destruct (registered_fields cs (self p)) as (_ & -> & -> & -> & ->).
    split; [intros k; apply registered_lookup|done].
Qed.

Lemma name_map_lookup vs k :
  name_map vs !! k = display <$> last (filter (λ c, wxid c = k) vs).
Proof.
  unfold name_map. induction vs as [|c vs IH] using rev_ind; [done|].
  rewrite fold_left_app, filter_app. simpl.
  rewrite filter_cons, filter_nil.
  destruct (decide (wxid c = k)) as [<-|Hne].
  - rewrite last_snoc. apply lookup_insert_eq.
  - rewrite app_nil_r, lookup_insert_ne by done. apply IH.
Qed.

Lemma name_map_keyed (m : gmap string Contact) vs :
  keyed_by_wxid m → vs ≡ₚ (map_to_list m).*2 →
  name_map vs = display <$> m.
Proof.
  intros Hk Hvs. apply map_eq. intros k.
  rewrite name_map_lookup, lookup_fmap. f_equal.
  assert (Hall : ∀ c, c ∈ filter (λ c, wxid c = k) vs → m !! k = Some c).
  { intros c [Hw Hc]%list_elem_of_filter. rewrite Hvs in Hc.
    apply list_elem_of_fmap in Hc as ([k' c'] & -> & Hc).
    apply elem_of_map_to_list in Hc. simpl in *.
    by rewrite <- Hw, (Hk k' c' Hc). }
  destruct (last _) as [c|] eqn:Hl.
  - symmetry. by apply Hall, last_Some_elem_of.
  - apply last_None in Hl.
    destruct (m !! k) as [c|] eqn:Hm; [|done]. exfalso.
    assert (Hin : c ∈ filter (λ c, wxid c = k) vs).
    { apply list_elem_of_filter. split; [by apply Hk|].
      rewrite Hvs. apply list_elem_of_fmap. exists (k, c).
      split; [done|]. by apply elem_of_map_to_list. }
    rewrite Hl in Hin. by apply elem_of_nil in Hin.
Qed.

(** X12.  Every record of the registry sits under its own identifier:
    the scans keep this, and it holds of the empty registry a reader
    starts with.  So the name map that [main] and [get_messages] build
    from the values of the registry, keyed by each record's identifier,
    has one entry for each key of the registry, whatever the order in
    which the values are taken. *)
Theorem registry_is_keyed_by_wxid (p : Proc) :
  keyed_by_wxid (contacts_map (self p)) →
  (∃ contacts p',
     get_contacts p = (Val contacts, p')
     ∧ keyed_by_wxid (contacts_map (self p')))
  ∧ (∃ groups p',
       get_groups p = (Val groups, p')
       ∧ keyed_by_wxid (contacts_map (self p')))
  ∧ (∀ values, values ≡ₚ (map_to_list (contacts_map (self p))).*2 →
               name_map values = display <$> contacts_map (self p)).
Proof.
  intros Hk. split; [|split].
  - destruct (get_contacts_registry p) as (cs & p' & E & Hself & _).
    exists cs, p'. split; [exact E|]. rewrite Hself. by apply registered_keyed.
  - destruct (get_groups_registry p) as (cs & p' & E & Hself & _).
    exists cs, p'. split; [exact E|]. rewrite Hself. by apply registered_keyed.
  - intros values. by apply name_map_keyed.
Qed.

Lemma registry_is_keyed_by_wxid_witness :
  ∃ contacts p',
    get_contacts (Sample.opened Sample.with_chatroom) = (Val contacts, p')
    ∧ keyed_by_wxid (contacts_map (self p')).
Proof.
  apply (registry_is_keyed_by_wxid (Sample.opened Sample.with_chatroom)).
  intros k c Hc. vm_compute in Hc. discriminate.
Defined.

(** X13.  The two scans of the [messages] command, one after the other:
    an identifier that [get_groups] returns ends up in the registry with
    a record of [get_groups], marked as a chat room, also when
    [get_contacts] had registered it before; every other identifier keeps
    the record [get_contacts] left. *)
Theorem groups_overwrite_contacts (p : Proc) :
  ∃ contacts groups p1 p2,
    get_contacts p = (Val contacts, p1)
    ∧ get_groups p1 = (Val groups, p2)
    ∧ (∀ g, g ∈ groups →
            ∃ c, contacts_map (self p2) !! wxid g = Some c
                 ∧ c ∈ groups ∧ is_chatroom c = true ∧ member_count c = 0)
    ∧ (∀ k, k ∉ map wxid groups →
            contacts_map (self p2) !! k = contacts_map (self p1) !! k).
Proof.
  destruct (get_contacts_registry p) as (cs & p1 & E1 & _).
  destruct (get_groups_registry p1) as (gs & p2 & E2 & Hself & _ & Hshape & _).
  exists cs, gs, p1, p2. split; [exact E1|]. split; [exact E2|].
  rewrite Hself. split.
  - intros g Hg. rewrite registered_lookup.
    destruct (last _) as [c|] eqn:Hl.
    + apply last_Some_elem_of, list_elem_of_filter in Hl as [_ Hc].
      exists c. split; [done|]. split; [done|].
      rewrite Forall_forall in Hshape. by destruct (Hshape c Hc) as (? & ? & _).
    + apply last_None in Hl.
      assert (Hin : g ∈ filter (λ c, wxid c = wxid g) gs)
        by (by apply list_elem_of_filter).
      rewrite Hl in Hin. by apply elem_of_nil in Hin.
  - intros k Hk. rewrite registered_lookup.
    destruct (last _) as [c|] eqn:Hl; [|done].
    apply last_Some_elem_of, list_elem_of_filter in Hl as [Hw Hc].
    exfalso. apply Hk. apply list_elem_of_fmap. by exists c.
Qed.

(** ** The [contacts] and [groups] commands *)






Lemma wp_v4_loop_null pre bad post
    (Q : Res unit → Proc * list Contact → Prop) p l :
  Forall (λ row, is_Some (RowV4.username row)) pre →
  RowV4.username bad = None →
  (∀ p' cs,
     stderr p' = stderr p → stdout p' = stdout p → sql_log p' = sql_log p →
     self p' = registered cs (self p) →
     map (λ c, Some (wxid c)) cs = map RowV4.username pre →
     Q (Exn (AttributeError "'NoneType' object has no attribute 'endswith'"))
       (p', l ++ cs)) →
  wp (for_each (pre ++ bad :: post) contact_of_v4) Q (p, l).
Proof.
  intros Hpre Hbad. revert p l Q.
  induction Hpre as [|row pre [w Hw] _ IH]; intros p l Q HQ; simpl.
  - apply wp_bind. unfold contact_of_v4. apply wp_bind. rewrite Hbad.
    apply wp_raise. specialize (HQ p []). rewrite app_nil_r in HQ.
    apply HQ; reflexivity.
  - apply wp_bind. unfold contact_of_v4 at 1. apply wp_bind. rewrite Hw.
    apply wp_ret, wp_append_and_register. apply IH.
    intros p' cs H1 H2 H3 H4 H5. rewrite <- app_assoc.
    apply (HQ p' (_ :: cs)); simpl in *; try done.
    by rewrite H5, Hw.
Qed.

(** X15.  A row of the new-schema contact statement with no [username]
    stops the scan of [get_contacts] where it stands: the contacts of the
    rows before it are returned and registered, the rows after it are
    dropped, the error of the attribute lookup is printed, and the
    old-schema statement is not tried. *)
Theorem get_contacts_stops_at_null_username (p : Proc) (db : Connection)
    (pre : list RowV4.t) (bad : RowV4.t) (post : list RowV4.t) :
  contact_db (self p) = Some db →
  contacts_v4 db = Val (Val (pre ++ bad :: post)) →
  Forall (λ row, is_Some (RowV4.username row)) pre →
  RowV4.username bad = None →
  ∃ contacts p',
    get_contacts p = (Val contacts, p')
    ∧ map (λ c, Some (wxid c)) contacts = map RowV4.username pre
    ∧ self p' = registered contacts (self p)
    ∧ stderr p'
      = stderr p ++ ["Error getting contacts: "
                     +:+ "'NoneType' object has no attribute 'endswith'"]
    ∧ sql_log p' = sql_log p ++ [(conn_repr db, QContactsV4)].
Proof.
  intros Hdb Hrows Hpre Hbad. apply wp_val_elim_ex.
  unfold get_contacts. apply wp_bind, wp_get. simpl. rewrite Hdb.
  apply wp_bind, wp_with_local, wp_try, wp_try.
  apply wp_bind, wp_outer. unfold execute. wp_steps. rewrite Hrows.
  wp_steps. apply wp_v4_loop_null; [done|done|].
  intros p' cs H1 H2 H3 H4 H5. simpl in *. wp_steps.
  exists cs. rewrite H1, H3. done.
Qed.

Lemma get_contacts_stops_at_null_username_witness :
  ∃ contacts p',
    get_contacts (Sample.opened Fixture.null_username) = (Val contacts, p')
    ∧ map (λ c, Some (wxid c)) contacts = [Some "alice"]
    ∧ stderr p'
      = ["Error getting contacts: 'NoneType' object has no attribute 'endswith'"].
Proof.
  destruct (get_contacts_stops_at_null_username
              (Sample.opened Fixture.null_username)
              (Sqlite.connect
                 (Sample.contact_store "/r/contact.db"
                    [ Sample.person "alice" 1;
                      {| Sqlite.username := None; Sqlite.alias := None;
                         Sqlite.local_type_c := 1; Sqlite.remark := None;
                         Sqlite.nick_name := None;
                         Sqlite.small_head_url := None |};
                      Sample.person "bob" 1 ]))
              [Sqlite.v4_row (Sample.person "alice" 1)]
              (Sqlite.v4_row
                 {| Sqlite.username := None; Sqlite.alias := None;
                    Sqlite.local_type_c := 1; Sqlite.remark := None;
                    Sqlite.nick_name := None;
                    Sqlite.small_head_url := None |})
              [Sqlite.v4_row (Sample.person "bob" 1)])
    as (cs & p' & E & Hids & _ & Herr & _).
  - reflexivity.
  - vm_compute. reflexivity.
  - repeat constructor. by eexists.
  - reflexivity.
  - exists cs, p'. split; [exact E|]. split; [exact Hids|exact Herr].
Defined.

(** ** The commands of [main] *)

Lemma main_on_root env prog command dir rest (cmd : M Proc unit) p' :
  (∀ (s : Proc),
     main env (prog :: command :: dir :: rest) s
     = (WeChatDatabaseV4 dir;; cmd;; mret 0) s) →
  cmd (start dir) = (Val tt, p') →
  main env (prog :: command :: dir :: rest) boot = (Val 0, p').
Proof.
  intros Hmain E. rewrite Hmain.
  unfold WeChatDatabaseV4, mbind, M_bind, bind, modify. simpl.
  change (with_self (λ _, new_reader dir) boot) with (start dir).
  by rewrite E.
Qed.

Lemma main_init env prog dir rest p' :
  run dir (cmd_init env) = (Val tt, p') →
  main env (prog :: "init" :: dir :: rest) boot = (Val 0, p').
Proof. apply main_on_root. reflexivity. Qed.

Lemma cmd_init_eq env dir :
  ∃ b p1,
    init_database env (start dir) = (Val b, p1)
    ∧ run dir (cmd_init env)
      = (Val tt, {| self := self p1; stderr := stderr p1;
                    stdout := [JObj [("success", JBool b);
                                     ("status", get_status (self p1))]];
                    sql_log := sql_log p1 |})
    ∧ _initialized (self p1) = b
    ∧ contacts_map (self p1) = ∅
    ∧ (b = true → is_Some (contact_db (self p1))).
Proof.
  destruct (init_database_spec env dir)
    as (b & p1 & E & Hmap & Hout & _ & Hini & Hc & Hb).
  exists b, p1. split; [exact E|].
  unfold run, cmd_init, mbind, M_bind, bind. rewrite E.
  unfold get_state, print_json, modify. cbn beta iota. rewrite Hout.
  repeat split; try done. by rewrite Hc.
Qed.

(** X16.  The [init] command always exits with status 0 and prints one
    object.  Its [success] is the [initialized] of the status printed with
    it; a success comes with a contact store; and the contact count is 0,
    as the command reads no contact. *)
Theorem init_command_output (env : Env) (prog dir : string)
    (rest : list string) :
  ∃ b status p',
    main env (prog :: "init" :: dir :: rest) boot = (Val 0, p')
    ∧ stdout p' = [JObj [("success", JBool b); ("status", status)]]
    ∧ field "initialized" status = Some (JBool b)
    ∧ field "contactCount" status = Some (JInt 0)
    ∧ field "dbVersion" status = Some (JInt 4)
    ∧ (b = true → field "hasContactDb" status = Some (JBool true)).
Proof.
  destruct (cmd_init_eq env dir) as (b & p1 & _ & E & Hini & Hmap & Hb).
  exists b, (get_status (self p1)). eexists.
  split; [exact (main_init env prog dir rest _ E)|].
  split; [reflexivity|]. simpl. rewrite Hini, Hmap.
  repeat split; try done. intros ->.
  by rewrite (bool_decide_eq_true_2 _ (Hb eq_refl)).
Qed.

Lemma main_messages env prog dir username rest limit offset start_time p' :
  match rest with a :: _ => int_of_str env a | [] => Val 100 end
  = Val limit →
  match rest with _ :: a :: _ => int_of_str env a | _ => Val 0 end
  = Val offset →
  match rest with _ :: _ :: a :: _ => int_of_str env a | _ => Val 0 end
  = Val start_time →
  run dir (cmd_messages env username limit offset start_time) = (Val tt, p') →
  main env (prog :: "messages" :: dir :: username :: rest) boot = (Val 0, p').
Proof.
  intros H1 H2 H3 E. unfold run in E. unfold main. simpl.
  unfold WeChatDatabaseV4, mbind, M_bind, bind, modify, lift, mret, ret.
  destruct rest as [|a [|b [|c rest]]]; simpl in *;
    repeat match goal with
           | H : Val _ = Val _ |- _ => injection H as <-
           | H : int_of_str _ _ = Val _ |- _ => rewrite H
           end;
    change (with_self (λ _, new_reader dir) boot) with (start dir);
    by rewrite E.
Qed.

Lemma cmd_messages_eq env dir username limit offset start_time :
  ∃ out p' b p1,
    run dir (cmd_messages env username limit offset start_time) = (Val tt, p')
    ∧ stdout p' = [out]
    ∧ init_database env (start dir) = (Val b, p1)
    ∧ match b with
      | false =>
        out = JObj [("messages", JList []); ("total", JInt 0);
                    ("hasMore", JBool false)]
      | true =>
        ∃ contacts groups p3 p4 msgs,
          self p3 = registered groups (registered contacts (self p1))
          ∧ get_messages env username limit offset start_time p3
            = (Val (msgs, length msgs), p4)
          ∧ out
            = JObj [("messages",
                     JList (map (Message_to_dict
                                   (display <$> contacts_map (self p3)))
                              msgs));
                    ("total", JInt (Z.of_nat (length msgs)));
                    ("hasMore",
                     JBool (offset + limit <? Z.of_nat (length msgs)))]
      end.
Proof.
  destruct (init_database_spec env dir) as (b & p1 & E & _ & Hout & _).
  unfold run, cmd_messages, mbind, M_bind, bind. rewrite E.
  destruct b.
  - destruct (get_contacts_registry p1) as (cs & p2 & E2 & Hs2 & Ho2 & _).
    destruct (get_groups_registry p2) as (gs & p3 & E3 & Hs3 & Ho3 & _).
    destruct (get_messages_spec env username limit offset start_time p3)
      as (p4 & E4 & _ & Ho4 & _).
    rewrite E2, E3. unfold get_state. rewrite E4.
    eexists _, _, true, p1. split; [reflexivity|]. simpl.
    rewrite Ho4, Ho3, Ho2, Hout. split; [reflexivity|]. split; [done|].
    eexists cs, gs, p3, p4, _. split; [by rewrite Hs3, Hs2|].
    split; [exact E4|]. reflexivity.
  - eexists _, _, false, p1. split; [reflexivity|]. simpl. rewrite Hout.
    done.
Qed.





(** X18.  [hasMore] counts shards, not rows.  When the shards are SQLite
    files of which [k] hold the conversation and the limit is not
    negative, [hasMore] is true only if [offset + limit] is below
    [k * limit]; so with one such shard, or none, and an offset that is
    not negative it is always false, however many rows the conversation
    has beyond the page. *)
Theorem has_more_needs_several_shards (env : Env)
    (prog dir username : string) (rest : list string)
    (limit offset start_time : Z) (files : list Sqlite.File) (p1 : Proc) :
  match rest with a :: _ => int_of_str env a | [] => Val 100 end
  = Val limit →
  match rest with _ :: a :: _ => int_of_str env a | _ => Val 0 end
  = Val offset →
  match rest with _ :: _ :: a :: _ => int_of_str env a | _ => Val 0 end
  = Val start_time →
  init_database env (start dir) = (Val true, p1) →
  message_dbs (self p1) = map Sqlite.connect files →
  0 ≤ limit →
  ∃ out has_more p',
    main env (prog :: "messages" :: dir :: username :: rest) boot
    = (Val 0, p')
    ∧ stdout p' = [out]
    ∧ field "hasMore" out = Some (JBool has_more)
    ∧ (has_more = true →
       offset + limit
       < Z.of_nat (length (List.filter (holds_table (table_name_of username))
                             files)) * limit)
    ∧ ((length (List.filter (holds_table (table_name_of username)) files)
        ≤ 1)%nat →
       0 ≤ offset → has_more = false).
Proof.
  intros H1 H2 H3 Einit Hdbs Hlimit.
  destruct (cmd_messages_eq env dir username limit offset start_time)
    as (out & p' & b & p1' & E & Hout & Einit' & Hb).
  rewrite Einit in Einit'. injection Einit' as <- <-.
  pose proof (main_messages env prog dir username rest limit offset
                start_time p' H1 H2 H3 E) as Hmain.
  destruct Hb as (cs & gs & p3 & p4 & msgs & Hself & E4 & ->).
  assert (Hdbs3 : message_dbs (self p3) = map Sqlite.connect files).
  { rewrite Hself.
    destruct (registered_fields gs (registered cs (self p1)))
      as (_ & _ & _ & -> & _).
    destruct (registered_fields cs (self p1)) as (_ & _ & _ & -> & _).
    exact Hdbs. }
  destruct (get_messages_files env username limit offset start_time p3 files
              Hdbs3) as (p4' & E4' & _).
  rewrite E4 in E4'. injection E4' as Hmsgs _ _.
  assert (Hlen : (length msgs
                  ≤ length (List.filter (holds_table (table_name_of username))
                              files) * Z.to_nat limit)%nat).
  { rewrite Hmsgs, list_sort_length. by apply flat_map_file_rows_length. }
  eexists _, _, p'. split; [exact Hmain|]. split; [exact Hout|].
  split; [reflexivity|]. split.
  - intros Hm. apply Z.ltb_lt in Hm. nia.
  - intros Hk Hoff. apply Z.ltb_ge. nia.
Qed.

Lemma has_more_needs_several_shards_witness :
  ∃ out p',
    main (Disk.env Sample.alice_disk None)
      ["wechat_reader.py"; "messages"; "/r"; "alice"; "1"; "0"; "0"] boot
    = (Val 0, p')
    ∧ stdout p' = [out]
    ∧ field "hasMore" out = Some (JBool false).
Proof.
  destruct (has_more_needs_several_shards (Disk.env Sample.alice_disk None)
              "wechat_reader.py" "/r" "alice" ["1"; "0"; "0"] 1 0 0
              (drop 1 (Disk.files Sample.alice_disk))
              (Sample.opened Sample.alice_disk)
              eq_refl eq_refl eq_refl)
    as (out & hm & p' & E & Hout & Hhm & _ & Hone).
  - vm_compute. reflexivity.
  - reflexivity.
  - lia.
  - exists out, p'. split; [exact E|]. split; [exact Hout|].
    rewrite Hhm. rewrite Hone; [reflexivity| |lia].
    vm_compute. lia.
Defined.




(** ** Scans over known rows *)

Lemma wp_old_loop chatroom rows
    (Q : Res unit → Proc * list Contact → Prop) p l :
  (∀ p' cs,
     stderr p' = stderr p → stdout p' = stdout p → sql_log p' = sql_log p →
     self p' = registered cs (self p) →
     map wxid cs = map RowOld.UserName rows →
     Q (Val tt) (p', l ++ cs)) →
  wp (for_each rows (contact_of_old chatroom)) Q (p, l).
Proof.
  revert p l Q. induction rows as [|row rows IH]; intros p l Q HQ; simpl.
  - apply wp_ret. specialize (HQ p []). rewrite app_nil_r in HQ.
    apply HQ; reflexivity.
  - apply wp_bind. unfold contact_of_old at 1.
    apply wp_append_and_register. apply IH.
    intros p' cs H1 H2 H3 H4 H5. rewrite <- app_assoc.
    apply (HQ p' (_ :: cs)); simpl in *; try done.
    by rewrite H5.
Qed.

Lemma wp_group_loop db rows
    (Q : Res unit → Proc * list Contact → Prop) p l :
  (∀ row e, row ∈ rows →
            query_error (chat_room_ext db (GroupV4.username row)) = Some e →
            is_sqlite3_Error e = true) →
  (∀ p' gs,
     stderr p' = stderr p → stdout p' = stdout p →
     sql_log p'
     = sql_log p ++ map (λ row, (conn_repr db,
                                 QChatRoomExt (GroupV4.username row))) rows →
     self p' = registered gs (self p) →
     map wxid gs = map GroupV4.username rows →
     Forall (λ g, is_chatroom g = true ∧ member_count g = 0) gs →
     Q (Val tt) (p', l ++ gs)) →
  wp (for_each rows (group_of_v4 db)) Q (p, l).
Proof.
  revert p l Q. induction rows as [|row rows IH]; intros p l Q Herr HQ; simpl.
  - apply wp_ret. specialize (HQ p []). rewrite !app_nil_r in HQ.
    apply HQ; reflexivity || constructor.
  - apply wp_bind. unfold group_of_v4 at 1.
    apply wp_bind, wp_outer. unfold _get_chatroom_member_count.
    assert (Hnext : wp (append_and_register
                          {| wxid := GroupV4.username row;
                             nickname := str_or (GroupV4.nick_name row)
                                           (GroupV4.username row);
                             remark := str_or (GroupV4.remark row)
                                         (str_or (GroupV4.nick_name row)
                                            (GroupV4.username row));
                             alias := str_or (GroupV4.alias row) "";
                             small_head_img_url :=
                               str_or (GroupV4.small_head_url row) "";
                             type := "friend"; is_chatroom := true;
                             member_count := 0 |})
                     (λ r st', match r with
                               | Val _ =>
                                 wp (for_each rows (group_of_v4 db)) Q st'
                               | Exn e => Q (Exn e) st'
                               end)
                     ({| self := self p; stderr := stderr p;
                         stdout := stdout p;
                         sql_log := sql_log p
                                    ++ [(conn_repr db,
                                         QChatRoomExt
                                           (GroupV4.username row))] |}, l)).
    { apply wp_append_and_register. apply IH.
      - intros row' e Hin. apply Herr. by right.
      - intros p' gs H1 H2 H3 H4 H5 H6. rewrite <- app_assoc.
        apply (HQ p' (_ :: gs)); simpl in *; try done.
        + by rewrite H3, <- app_assoc.
        + by rewrite H5.
        + by constructor. }
    wp_steps.
    destruct (chat_room_ext db (GroupV4.username row)) as [[ext|e]|e] eqn:Hq;
      simpl.
    + wp_steps. exact Hnext.
    + wp_steps. rewrite (Herr row e) by (by left || by rewrite Hq).
      wp_steps. exact Hnext.
    + rewrite (Herr row e) by (by left || by rewrite Hq).
      wp_steps. exact Hnext.
Qed.

(** X20.  [get_groups] on a store that answers the new-schema statement:
    it returns one group for each row, in the order of the rows, and
    executes one [chat_room] statement for each row, whose outcome changes
    nothing: the member count is 0 also when the statement yields a
    buffer, and a statement that fails with a [sqlite3] error (a store
    without a [chat_room] table) is passed over without a message. *)
Theorem get_groups_one_statement_per_group (p : Proc) (db : Connection)
    (rows : list GroupV4.t) :
  contact_db (self p) = Some db →
  groups_v4 db = Val (Val rows) →
  (∀ row e, row ∈ rows →
            query_error (chat_room_ext db (GroupV4.username row)) = Some e →
            is_sqlite3_Error e = true) →
  ∃ groups p',
    get_groups p = (Val groups, p')
    ∧ map wxid groups = map GroupV4.username rows
    ∧ Forall (λ g, is_chatroom g = true ∧ member_count g = 0) groups
    ∧ sql_log p'
      = sql_log p ++ (conn_repr db, QGroupsV4)
          :: map (λ row, (conn_repr db, QChatRoomExt (GroupV4.username row)))
               rows
    ∧ stderr p' = stderr p.
Proof.
  intros Hdb Hrows Herr. apply wp_val_elim_ex.
  unfold get_groups. apply wp_bind, wp_get. simpl. rewrite Hdb.
  apply wp_bind, wp_with_local, wp_try, wp_try.
  apply wp_bind, wp_outer. unfold execute. wp_steps. rewrite Hrows.
  wp_steps. apply wp_group_loop; [exact Herr|].
  intros p' gs H1 H2 H3 H4 H5 H6. simpl in *. wp_steps.
  exists gs. rewrite H1, H3, <- app_assoc. done.
Qed.

Lemma get_groups_one_statement_per_group_witness :
  ∃ groups p',
    get_groups (Sample.opened Sample.with_chatroom) = (Val groups, p')
    ∧ map wxid groups = ["123@chatroom"]
    ∧ map snd (sql_log p') = [QGroupsV4; QChatRoomExt "123@chatroom"]
    ∧ stderr p' = [].
Proof.
  destruct (get_groups_one_statement_per_group
              (Sample.opened Sample.with_chatroom)
              (Sqlite.connect
                 (Sample.contact_store "/r/contact.db"
                    [Sample.person "bob" 1; Sample.person "123@chatroom" 2]))
              [ {| GroupV4.username := "123@chatroom";
                   GroupV4.alias := None; GroupV4.nick_name := None;
                   GroupV4.remark := None;
                   GroupV4.small_head_url := None |} ])
    as (gs & p' & E & Hids & _ & Hlog & Herr).
  - reflexivity.
  - vm_compute. reflexivity.
  - intros row e Hrow. apply list_elem_of_In in Hrow.
    destruct Hrow as [<-|[]]. vm_compute. by intros [= <-].
  - exists gs, p'. split; [exact E|]. split; [exact Hids|].
    split; [by rewrite Hlog|exact Herr].
Defined.

(** X21.  [get_contacts] on an old-schema store.  The new-schema
    statement fails on the missing column, the old-schema statement
    answers, and one contact is returned for each of its rows, in order,
    with nothing printed.  None of them is the file helper, the bottle,
    the notes or the friend-request account, and none has an identifier
    that matches [gh_%]. *)
Theorem old_schema_contacts (p : Proc) (f : Sqlite.File)
    (rows : list Sqlite.OldContactRec) :
  contact_db (self p) = Some (Sqlite.connect f) →
  Sqlite.corrupt f = false →
  Sqlite.contact f = Sqlite.ContactOld rows →
  ∃ contacts p',
    get_contacts p = (Val contacts, p')
    ∧ map wxid contacts
      = map RowOld.UserName (Sqlite.select_contacts_old rows)
    ∧ Forall (λ c, (wxid c ∉ ["filehelper"; "floatbottle"; "medianote";
                               "fmessage"])
                   ∧ Sqlite.like_gh (wxid c) = false) contacts
    ∧ map snd (drop (length (sql_log p)) (sql_log p'))
      = [QContactsV4; QContactsOld]
    ∧ stderr p' = stderr p.
Proof.
  intros Hdb Hok Hold.
  cut (∃ contacts p',
         get_contacts p = (Val contacts, p')
         ∧ map wxid contacts
           = map RowOld.UserName (Sqlite.select_contacts_old rows)
         ∧ sql_log p'
           = sql_log p ++ [(conn_repr (Sqlite.connect f), QContactsV4);
                           (conn_repr (Sqlite.connect f), QContactsOld)]
         ∧ stderr p' = stderr p).
  { intros (cs & p' & E & Hids & Hlog & Herr). exists cs, p'.
    split; [exact E|]. split; [exact Hids|]. split; [|split; [|exact Herr]].
    - apply Forall_forall. intros c Hc.
      assert (Hin : wxid c ∈ map wxid cs)
        by (apply list_elem_of_fmap; by exists c).
      rewrite Hids in Hin. unfold Sqlite.select_contacts_old in Hin.
      rewrite map_map in Hin.
      apply list_elem_of_fmap in Hin as (r & Hr & Hin).
      rewrite stable_sort_perm in Hin.
      apply list_elem_of_filter in Hin as [(_ & Hgh & H1 & H2 & H3 & H4) _].
      simpl in Hr. rewrite Hr. split; [|done].
      intros Hmem. apply list_elem_of_In in Hmem. simpl in Hmem.
      destruct Hmem as [?|[?|[?|[?|[]]]]]; congruence.
    - rewrite Hlog, drop_app_length. reflexivity. }
  apply wp_val_elim_ex.
  unfold get_contacts. apply wp_bind, wp_get. simpl. rewrite Hdb.
  apply wp_bind, wp_with_local, wp_try, wp_try.
  apply wp_bind, wp_outer. unfold execute. wp_steps.
  unfold Sqlite.answer. rewrite Hok, Hold. simpl. wp_steps.
  apply wp_old_loop. intros p' cs H1 H2 H3 H4 H5. simpl in *. wp_steps.
  exists cs. rewrite H1, H3, <- app_assoc. done.
Qed.

Lemma old_schema_contacts_witness :
  ∃ contacts p',
    get_contacts (Sample.opened Sample.old_disk) = (Val contacts, p')
    ∧ map wxid contacts = ["carol"; "9@chatroom"].
Proof.
  destruct (old_schema_contacts (Sample.opened Sample.old_disk)
              Sample.old_store
              [Sample.old_person "gh_news"; Sample.old_person "carol";
               Sample.old_person "9@chatroom"])
    as (cs & p' & E & Hids & _).
  - reflexivity.
  - reflexivity.
  - reflexivity.
  - exists cs, p'. split; [exact E|]. rewrite Hids. vm_compute. reflexivity.
Defined.
